(** * obs-websocket: the WebSocket server core

    A shallow embedding of [src/WebSocketServer.cpp] and of
    [src/utils/Platform.cpp], and the properties of the connection
    lifecycle handlers, the broadcast fan-out, the shutdown sequence and the
    connect string.

    Conventions of the embedding:
    - the session table [std::map<connection_hdl, WebSocketSession>] is a
      [gmap] keyed by the connection handle; [_sessions[hdl]] is a lookup
      that default-constructs the entry when it is absent, [erase] is
      [delete];
    - every action the server performs on the outside world (a frame sent,
      a connection closed, a log line, a Qt signal emitted, the table mutex
      taken or released) is appended to a chronological [trace] carried by
      the server state;
    - what the transport decides (the request headers of a connection,
      whether a send or a close reports an error) is read from the
      [connections] field of the state. *)

From Stdlib Require Import ZArith NArith Ascii DecimalString.
From stdpp Require Import gmap strings list fin_maps.


(** ** Qt strings: [QString::arg] *)

(** [QChar::digitValue] on the ASCII range. *)
Definition digitValue (c : ascii) : option nat :=
  let n := nat_of_ascii c in
  if (48 <=? n)%nat && (n <=? 57)%nat then Some (n - 48)%nat else None.

(** The scan of [QString::arg] cuts its receiver into plain characters and
    place markers: a [%], an optional [L], and one or two digits. A marker
    remembers its number and its own text. *)
Inductive ArgToken :=
| TChar (c : ascii)
| TEscape (n : nat) (text : string).

Definition percent : ascii := "%"%char.

Fixpoint findArgEscapes (s : string) : list ArgToken :=
  match s with
  | EmptyString => []
  | String c rest =>
    if Ascii.eqb c percent then
      match rest with
      | EmptyString => [TChar c]
      | String c1 rest1 =>
        if Ascii.eqb c1 "L"%char then
          match rest1 with
          | EmptyString => [TChar c; TChar c1]
          | String c2 rest2 =>
            match digitValue c2 with
            | None => TChar c :: TChar c1 :: findArgEscapes rest1
            | Some d =>
              match rest2 with
              | EmptyString => [TEscape d (String c (String c1 (String c2 "")))]
              | String c3 rest3 =>
                match digitValue c3 with
                | Some d' =>
                  TEscape (10 * d + d')
                          (String c (String c1 (String c2 (String c3 ""))))
                    :: findArgEscapes rest3
                | None =>
                  TEscape d (String c (String c1 (String c2 "")))
                    :: findArgEscapes rest2
                end
              end
            end
          end
        else
          match digitValue c1 with
          | None => TChar c :: findArgEscapes rest
          | Some d =>
            match rest1 with
            | EmptyString => [TEscape d (String c (String c1 ""))]
            | String c2 rest2 =>
              match digitValue c2 with
              | Some d' =>
                TEscape (10 * d + d') (String c (String c1 (String c2 "")))
                  :: findArgEscapes rest2
              | None =>
                TEscape d (String c (String c1 "")) :: findArgEscapes rest1
              end
            end
          end
      end
    else TChar c :: findArgEscapes rest
  end.

(** The lowest marker number of a scanned string, if it has a marker. *)
Fixpoint min_escape (toks : list ArgToken) : option nat :=
  match toks with
  | [] => None
  | TChar _ :: toks' => min_escape toks'
  | TEscape n _ :: toks' =>
    match min_escape toks' with
    | None => Some n
    | Some m => Some (Nat.min n m)
    end
  end.

(** Every marker carrying the lowest number is replaced by the argument,
    the other markers and the plain characters are copied. *)
Fixpoint replaceArgEscapes (m : nat) (a : string) (toks : list ArgToken)
  : string :=
  match toks with
  | [] => ""
  | TChar c :: toks' => String c (replaceArgEscapes m a toks')
  | TEscape n text :: toks' =>
    (if Nat.eqb n m then a else text) +:+ replaceArgEscapes m a toks'
  end.

(** [QString::arg(const QString &)] with the default field width: a string
    without a marker is returned as it is (Qt prints a warning). *)
Definition QString_arg (s a : string) : string :=
  let toks := findArgEscapes s in
  match min_escape toks with
  | None => s
  | Some m => replaceArgEscapes m a toks
  end.

(** [QString::arg(ushort)]: the number in base ten. *)
Definition QString_number (n : N) : string :=
  NilZero.string_of_uint (N.to_uint n).

Definition QString_arg_num (s : string) (n : N) : string :=
  QString_arg s (QString_number n).

(** A string without the character [%] holds no place marker. *)
Fixpoint no_percent (s : string) : bool :=
  match s with
  | EmptyString => true
  | String c rest => negb (Ascii.eqb c percent) && no_percent rest
  end.

(** ** [Utils::Platform::GetLocalAddress] *)

(** What [GetLocalAddress] asks of a [QHostAddress]: the five tests of its
    filter and the textual form. *)
Record QHostAddress := {
  isLocalHost : bool;      (* address == QHostAddress::LocalHost *)
  isLocalHostIPv6 : bool;  (* address == QHostAddress::LocalHostIPv6 *)
  isLoopback : bool;
  isLinkLocal : bool;
  isNull : bool;
  toString : string
}.

(** The first loop: addresses that cannot work are left out. *)
Fixpoint validAddresses (allAddresses : list QHostAddress) : list string :=
  match allAddresses with
  | [] => []
  | address :: rest =>
    if isLocalHost address then validAddresses rest
    else if isLocalHostIPv6 address then validAddresses rest
    else if isLoopback address then validAddresses rest
    else if isLinkLocal address then validAddresses rest
    else if isNull address then validAddresses rest
    else toString address :: validAddresses rest
  end.

(** The priority given to an address, 0 is best. *)
Definition addressPriority (address : string) : N :=
  if String.prefix "192.168.1" address || String.prefix "192.168.0" address
  then 0%N
  else if String.prefix "172.16" address then 1%N
  else if String.prefix "10." address then 2%N
  else 255%N.

Definition preferredAddresses (valid : list string) : list (string * N) :=
  map (fun address => (address, addressPriority address)) valid.

(** [std::sort] with the comparison [a.second < b.second], as an insertion
    sort. [std::sort] is not stable and this sort is: among addresses of
    equal priority the one the code puts first may be another one, so the
    statements below speak of the priority of the address returned. *)
Fixpoint sort_insert (a : string * N) (l : list (string * N))
  : list (string * N) :=
  match l with
  | [] => [a]
  | b :: l' => if (snd b <? snd a)%N then b :: sort_insert a l' else a :: l
  end.

Fixpoint sort_by_priority (l : list (string * N)) : list (string * N) :=
  match l with
  | [] => []
  | a :: l' => sort_insert a (sort_by_priority l')
  end.

Definition GetLocalAddress (allAddresses : list QHostAddress) : string :=
  let valid := validAddresses allAddresses in
  if Nat.eqb (length valid) 0 then "0.0.0.0"
  else
    match sort_by_priority (preferredAddresses valid) with
    | [] => "0.0.0.0"
    | best :: _ => fst best
    end.

(** ** JSON values ([nlohmann::json]) *)

#[warnings="-register-all"]
Inductive json :=
| JNull
| JBool (b : bool)
| JNumber (n : Z)
| JString (s : string)
| JArray (l : list json)
| JObject (m : gmap string json).

Definition is_object (j : json) : bool :=
  match j with JObject _ => true | _ => false end.

(** [j[key] = v]: a null value becomes an object first; a value of another
    kind is not indexable by a key (the library throws) and is left alone. *)
Definition json_set (key : string) (v : json) (j : json) : json :=
  match j with
  | JNull => JObject {[ key := v ]}
  | JObject m => JObject (<[ key := v ]> m)
  | _ => j
  end.

(** Reading [j[key]]: the member, or null when there is none. *)
Definition json_get (key : string) (j : json) : json :=
  match j with
  | JObject m => default JNull (m !! key)
  | _ => JNull
  end.

(** The member of an object, when [j] is an object that has it. *)
Definition json_member (key : string) (j : json) : option json :=
  match j with
  | JObject m => m !! key
  | _ => None
  end.

(** ** Sessions *)

Definition connection_hdl := nat.

Inductive WebSocketEncoding := Json | MsgPack.

(** Modelled from the spec: the class [WebSocketSession], whose header and
    implementation are not among the sources. Its fields are those listed in
    the data model of the specification, read through the getters the server
    calls ([RemoteAddress()], [ConnectedAt()], ...); the 64-bit unsigned
    fields are integers of [Z]. *)
Record WebSocketSession := {
  RemoteAddress : string;
  ConnectedAt : Z;
  IncomingMessages : Z;
  OutgoingMessages : Z;
  Encoding : WebSocketEncoding;
  IsIdentified : bool;
  EventSubscriptions : Z;
  Challenge : string
}.

(** Modelled from the spec: a freshly constructed session (what
    [_sessions[hdl]] inserts for a new handle): not identified, no
    subscription, counters at zero, no address, and the encoding a
    connection without a [Content-Type] header keeps, [Json]. *)
Definition default_session : WebSocketSession := {|
  RemoteAddress := "";
  ConnectedAt := 0;
  IncomingMessages := 0;
  OutgoingMessages := 0;
  Encoding := Json;
  IsIdentified := false;
  EventSubscriptions := 0;
  Challenge := ""
|}.

(** Modelled from the spec: the setters of [WebSocketSession] the server
    calls; each one writes its own field. *)
Definition SetRemoteAddress (a : string) (s : WebSocketSession) :=
  {| RemoteAddress := a; ConnectedAt := ConnectedAt s;
     IncomingMessages := IncomingMessages s;
     OutgoingMessages := OutgoingMessages s; Encoding := Encoding s;
     IsIdentified := IsIdentified s;
     EventSubscriptions := EventSubscriptions s; Challenge := Challenge s |}.

Definition SetConnectedAt (t : Z) (s : WebSocketSession) :=
  {| RemoteAddress := RemoteAddress s; ConnectedAt := t;
     IncomingMessages := IncomingMessages s;
     OutgoingMessages := OutgoingMessages s; Encoding := Encoding s;
     IsIdentified := IsIdentified s;
     EventSubscriptions := EventSubscriptions s; Challenge := Challenge s |}.

Definition SetEncoding (e : WebSocketEncoding) (s : WebSocketSession) :=
  {| RemoteAddress := RemoteAddress s; ConnectedAt := ConnectedAt s;
     IncomingMessages := IncomingMessages s;
     OutgoingMessages := OutgoingMessages s; Encoding := e;
     IsIdentified := IsIdentified s;
     EventSubscriptions := EventSubscriptions s; Challenge := Challenge s |}.

Definition SetChallenge (c : string) (s : WebSocketSession) :=
  {| RemoteAddress := RemoteAddress s; ConnectedAt := ConnectedAt s;
     IncomingMessages := IncomingMessages s;
     OutgoingMessages := OutgoingMessages s; Encoding := Encoding s;
     IsIdentified := IsIdentified s;
     EventSubscriptions := EventSubscriptions s; Challenge := c |}.

(** The struct [WebSocketSessionState]; [onClose] leaves its handle
    default-constructed (empty). *)
Record WebSocketSessionState := {
  state_hdl : option connection_hdl;
  state_remoteAddress : string;
  state_connectedAt : Z;
  state_incomingMessages : Z;
  state_outgoingMessages : Z
}.

(** ** The transport and the trace of actions *)

(** Close codes: the two of [WebSocketCloseCode] the server uses, the
    standard "going away", and any other status the transport reports. *)
Inductive CloseCode :=
| going_away
| SessionInvalidated
| InvalidContentType
| status_value (n : N).

Inductive opcode := text | binary.

Inductive LogLevel := LOG_INFO | LOG_WARNING | LOG_ERROR.

(** What the transport knows of one connection. An error code is [None] on
    success and the error's message otherwise. *)
Record Connection := {
  get_remote_endpoint : string;
  get_request_header : string → string;   (* empty when the header is absent *)
  get_local_close_code : CloseCode;
  send_error : option string;
  pause_reading_error : option string;
  close_error : option string
}.

Inductive Action :=
| ALock                        (* _sessionMutex taken *)
| AUnlock                      (* _sessionMutex released *)
| AErase (hdl : connection_hdl)            (* _sessions.erase(hdl) *)
| ASend (hdl : connection_hdl) (payload : string) (op : opcode)
| APauseReading (hdl : connection_hdl)
| AClose (hdl : connection_hdl) (code : CloseCode) (reason : string)
| AStopListening
| AWaitForDone                 (* _threadPool.waitForDone() *)
| ASleep (ms : N)
| AJoin                        (* _serverThread.join() *)
| ALog (level : LogLevel) (msg : string)
| AClientDisconnected (state : WebSocketSessionState) (code : CloseCode)
| AIdentifiedClientDisconnected (state : WebSocketSessionState)
                                (code : CloseCode).

(** A broadcast handed to the worker pool: the captures of the lambda. *)
Record BroadcastTask := {
  task_requiredIntent : Z;
  task_eventType : string;
  task_eventData : json
}.

(** The server object together with the transport it drives. *)
Record WebSocketServer := {
  is_listening : bool;                       (* _server.is_listening() *)
  connections : connection_hdl → Connection; (* _server.get_con_from_hdl *)
  _sessions : gmap connection_hdl WebSocketSession;
  _serverPort : N;
  _serverPassword : string;
  _authenticationRequired : bool;
  _authenticationSalt : string;
  _threadPool : list BroadcastTask;          (* queued, not yet run *)
  trace : list Action
}.

Definition emit (a : Action) (srv : WebSocketServer) : WebSocketServer :=
  {| is_listening := is_listening srv; connections := connections srv;
     _sessions := _sessions srv; _serverPort := _serverPort srv;
     _serverPassword := _serverPassword srv;
     _authenticationRequired := _authenticationRequired srv;
     _authenticationSalt := _authenticationSalt srv;
     _threadPool := _threadPool srv; trace := trace srv ++ [a] |}.

Definition set_sessions (m : gmap connection_hdl WebSocketSession)
  (srv : WebSocketServer) : WebSocketServer :=
  {| is_listening := is_listening srv; connections := connections srv;
     _sessions := m; _serverPort := _serverPort srv;
     _serverPassword := _serverPassword srv;
     _authenticationRequired := _authenticationRequired srv;
     _authenticationSalt := _authenticationSalt srv;
     _threadPool := _threadPool srv; trace := trace srv |}.

Definition set_listening (b : bool) (srv : WebSocketServer)
  : WebSocketServer :=
  {| is_listening := b; connections := connections srv;
     _sessions := _sessions srv; _serverPort := _serverPort srv;
     _serverPassword := _serverPassword srv;
     _authenticationRequired := _authenticationRequired srv;
     _authenticationSalt := _authenticationSalt srv;
     _threadPool := _threadPool srv; trace := trace srv |}.

Definition set_threadPool (p : list BroadcastTask) (srv : WebSocketServer)
  : WebSocketServer :=
  {| is_listening := is_listening srv; connections := connections srv;
     _sessions := _sessions srv; _serverPort := _serverPort srv;
     _serverPassword := _serverPassword srv;
     _authenticationRequired := _authenticationRequired srv;
     _authenticationSalt := _authenticationSalt srv;
     _threadPool := p; trace := trace srv |}.

Definition set_trace (t : list Action) (srv : WebSocketServer)
  : WebSocketServer :=
  {| is_listening := is_listening srv; connections := connections srv;
     _sessions := _sessions srv; _serverPort := _serverPort srv;
     _serverPassword := _serverPassword srv;
     _authenticationRequired := _authenticationRequired srv;
     _authenticationSalt := _authenticationSalt srv;
     _threadPool := _threadPool srv; trace := t |}.

(** [_sessions[hdl]]: the entry, default-constructed when absent. *)
Definition session_at (hdl : connection_hdl)
  (m : gmap connection_hdl WebSocketSession) : WebSocketSession :=
  default default_session (m !! hdl).

(** ** [WebSocketServer::GetConnectString] *)

Definition GetConnectString (allAddresses : list QHostAddress)
  (srv : WebSocketServer) : string :=
  if _authenticationRequired srv then
    QString_arg
      (QString_arg_num
         (QString_arg "obswebsocket|%1:%2|%3" (GetLocalAddress allAddresses))
         (_serverPort srv))
      (_serverPassword srv)
  else
    QString_arg_num
      (QString_arg "obswebsocket|%1:%2" (GetLocalAddress allAddresses))
      (_serverPort srv).

(** ** The handlers, the broadcast and the shutdown *)

Section Server.

(** The two serializers of the JSON library, and the two version macros of
    [plugin-macros.generated.h] (a generated header). *)
Variable json_dump : json → string.
Variable json_to_msgpack : json → string.
Variable OBS_WEBSOCKET_VERSION : string.
Variable OBS_WEBSOCKET_RPC_VERSION : Z.

(** *** [WebSocketServer::onOpen] *)

Definition invalid_content_type_reason : string :=
  "Your HTTP `Content-Type` header specifies an invalid encoding type.".

(** The [Hello] object; [sessionChallenge] is what [GenerateSalt] returns
    when authentication is required. *)
Definition helloMessage (authenticationRequired : bool)
  (sessionChallenge authenticationSalt : string) : json :=
  let hello :=
    json_set "rpcVersion" (JNumber OBS_WEBSOCKET_RPC_VERSION)
      (json_set "obsWebSocketVersion" (JString OBS_WEBSOCKET_VERSION)
         (json_set "messageType" (JString "Hello") JNull)) in
  if authenticationRequired then
    let hello1 := json_set "authentication" JNull hello in
    let hello2 :=
      json_set "authentication"
        (json_set "challenge" (JString sessionChallenge)
           (json_get "authentication" hello1)) hello1 in
    json_set "authentication"
      (json_set "salt" (JString authenticationSalt)
         (json_get "authentication" hello2)) hello2
  else hello.

(** The second half of [onOpen], from "Build `Hello`" on; [session] is the
    content of the table entry at that point. *)
Definition onOpen_greet (hdl : connection_hdl) (sessionChallenge : string)
  (session : WebSocketSession) (srv : WebSocketServer) : WebSocketServer :=
  let session' :=
    if _authenticationRequired srv then SetChallenge sessionChallenge session
    else session in
  let hello :=
    helloMessage (_authenticationRequired srv) sessionChallenge
                 (_authenticationSalt srv) in
  let srv' := set_sessions (<[hdl := session']> (_sessions srv)) srv in
  match Encoding session' with
  | Json => emit (ASend hdl (json_dump hello) text) srv'
  | MsgPack => emit (ASend hdl (json_to_msgpack hello) binary) srv'
  end.

(** [now] is [QDateTime::currentSecsSinceEpoch()], converted to the
    unsigned 64-bit argument of [SetConnectedAt]; [sessionChallenge] is the
    value [Utils::Crypto::GenerateSalt()] returns if it is called. The
    session is a reference into the table, so every setter writes the
    entry. *)
Definition onOpen (hdl : connection_hdl) (now : Z) (sessionChallenge : string)
  (srv : WebSocketServer) : WebSocketServer :=
  let conn := connections srv hdl in
  let session0 := session_at hdl (_sessions srv) in
  let srv1 :=
    emit AUnlock
      (set_sessions (<[hdl := session0]> (_sessions srv)) (emit ALock srv)) in
  let session1 :=
    SetConnectedAt (now mod 2 ^ 64)
      (SetRemoteAddress (get_remote_endpoint conn) session0) in
  let contentType := get_request_header conn "Content-Type" in
  if String.eqb contentType "" then
    onOpen_greet hdl sessionChallenge session1 srv1
  else if String.eqb contentType "application/json" then
    onOpen_greet hdl sessionChallenge (SetEncoding Json session1) srv1
  else if String.eqb contentType "application/msgpack" then
    onOpen_greet hdl sessionChallenge (SetEncoding MsgPack session1) srv1
  else
    emit (AClose hdl InvalidContentType invalid_content_type_reason)
      (set_sessions (<[hdl := session1]> (_sessions srv1)) srv1).

(** *** [WebSocketServer::onClose] *)

(** The values [onClose] reads from the session, as it stores them in the
    state object of the signal. *)
Definition snapshot (session : WebSocketSession) : WebSocketSessionState :=
  {| state_hdl := None;
     state_remoteAddress := RemoteAddress session;
     state_connectedAt := ConnectedAt session;
     state_incomingMessages := IncomingMessages session;
     state_outgoingMessages := OutgoingMessages session |}.

Definition onClose (hdl : connection_hdl) (srv : WebSocketServer)
  : WebSocketServer :=
  let conn := connections srv hdl in
  let session := session_at hdl (_sessions srv) in
  let isIdentified := IsIdentified session in
  let state := snapshot session in
  let srv1 :=
    emit AUnlock
      (emit (AErase hdl)
         (set_sessions (delete hdl (_sessions srv)) (emit ALock srv))) in
  let srv2 :=
    emit (AClientDisconnected state (get_local_close_code conn)) srv1 in
  if isIdentified then
    emit (AIdentifiedClientDisconnected state (get_local_close_code conn)) srv2
  else srv2.

(** *** [WebSocketServer::onMessage]: an empty body. *)

Definition onMessage (hdl : connection_hdl) (message : string)
  (srv : WebSocketServer) : WebSocketServer := srv.

(** *** [WebSocketServer::BroadcastEvent] *)

Definition eventMessage (eventType : string) (eventData : json) : json :=
  let msg :=
    json_set "eventType" (JString eventType)
      (json_set "messageType" (JString "Event") JNull) in
  if is_object eventData then json_set "eventData" eventData msg else msg.

Definition string_empty (s : string) : bool :=
  match s with EmptyString => true | _ => false end.

(** The state of the loop: the two lazily filled buffers [messageJson] and
    [messageMsgPack], and the actions performed so far. *)
Record FanOut := {
  messageJson : string;
  messageMsgPack : string;
  performed : list Action
}.

(** One turn of the loop over [_sessions]. The error code of [send] is
    written by the transport and never read. *)
Definition broadcast_step (requiredIntent : Z) (msg : json) (acc : FanOut)
  (it : connection_hdl * WebSocketSession) : FanOut :=
  if negb (IsIdentified it.2) then acc
  else if negb (Z.eqb (Z.land (EventSubscriptions it.2) requiredIntent) 0) then
    match Encoding it.2 with
    | Json =>
      let messageJson' :=
        if string_empty (messageJson acc) then json_dump msg
        else messageJson acc in
      {| messageJson := messageJson';
         messageMsgPack := messageMsgPack acc;
         performed := performed acc ++ [ASend it.1 messageJson' text] |}
    | MsgPack =>
      let messageMsgPack' :=
        if string_empty (messageMsgPack acc) then json_to_msgpack msg
        else messageMsgPack acc in
      {| messageJson := messageJson acc;
         messageMsgPack := messageMsgPack';
         performed := performed acc ++ [ASend it.1 messageMsgPack' binary] |}
    end
  else acc.

Definition broadcast_loop (requiredIntent : Z) (msg : json)
  (sessions : list (connection_hdl * WebSocketSession)) (acc : FanOut)
  : FanOut :=
  fold_left (broadcast_step requiredIntent msg) sessions acc.

(** The body of the lambda, as a worker of the pool runs it. *)
Definition run_broadcast (task : BroadcastTask) (srv : WebSocketServer)
  : WebSocketServer :=
  let msg := eventMessage (task_eventType task) (task_eventData task) in
  let srv1 := emit ALock srv in
  let out :=
    broadcast_loop (task_requiredIntent task) msg
      (map_to_list (_sessions srv1))
      {| messageJson := ""; messageMsgPack := ""; performed := trace srv1 |} in
  emit AUnlock (set_trace (performed out) srv1).

(** [BroadcastEvent] itself only hands the lambda to the pool. *)
Definition BroadcastEvent (requiredIntent : Z) (eventType : string)
  (eventData : json) (srv : WebSocketServer) : WebSocketServer :=
  set_threadPool
    (_threadPool srv ++
       [{| task_requiredIntent := requiredIntent;
           task_eventType := eventType;
           task_eventData := eventData |}]) srv.

(** [QThreadPool::waitForDone]: every queued task has run when it returns.
    Here the tasks still queued run inside the call; a worker of the pool
    may as well run a task earlier, which is then [run_broadcast] at that
    point: the place of a task's actions relative to the call is that of
    this embedding. *)
Definition waitForDone (srv : WebSocketServer) : WebSocketServer :=
  set_threadPool []
    (fold_left (fun s task => run_broadcast task s) (_threadPool srv)
       (emit AWaitForDone srv)).

(** *** [WebSocketServer::Stop] *)

(** What the I/O thread does while [Stop] sleeps: it runs handlers. *)
Inductive IOEvent :=
| IOOpen (hdl : connection_hdl) (now : Z) (sessionChallenge : string)
| IOClose (hdl : connection_hdl)
| IOMessage (hdl : connection_hdl) (message : string).

Definition run_io_event (srv : WebSocketServer) (e : IOEvent)
  : WebSocketServer :=
  match e with
  | IOOpen hdl now c => onOpen hdl now c srv
  | IOClose hdl => onClose hdl srv
  | IOMessage hdl m => onMessage hdl m srv
  end.

Definition run_io (events : list IOEvent) (srv : WebSocketServer)
  : WebSocketServer :=
  fold_left run_io_event events srv.

Definition stop_error_msg (e : string) : string :=
  "[WebSocketServer::Stop] Error: " +:+ e.

(** One turn of the loop of [Stop] over the sessions. *)
Definition stop_step (srv : WebSocketServer)
  (it : connection_hdl * WebSocketSession) : WebSocketServer :=
  let conn := connections srv it.1 in
  let srv1 := emit (APauseReading it.1) srv in
  match pause_reading_error conn with
  | Some e => emit (ALog LOG_INFO (stop_error_msg e)) srv1
  | None =>
    let srv2 := emit (AClose it.1 going_away "Server stopping.") srv1 in
    match close_error conn with
    | Some e => emit (ALog LOG_INFO (stop_error_msg e)) srv2
    | None => srv2
    end
  end.

(** [while (_sessions.size() > 0) sleep_for(10ms)]. The handlers the I/O
    thread runs during the successive sleeps are given by [schedule]; the
    loop has no result when the table is still occupied at the end of the
    schedule. *)
Fixpoint stop_poll (schedule : list (list IOEvent)) (srv : WebSocketServer)
  : option WebSocketServer :=
  if (0 <? size (_sessions srv))%nat then
    match schedule with
    | [] => None
    | events :: schedule' =>
      stop_poll schedule' (run_io events (emit (ASleep 10) srv))
    end
  else Some srv.

Definition stop_warning : string :=
  "[WebSocketServer::Stop] Call to Stop() but the server is not listening.".

Definition stop_success : string :=
  "[WebSocketServer::Stop] Server stopped successfully".

(** The first part of the teardown: the listener is stopped and, under the
    table mutex, every session is paused and closed. *)
Definition stop_close_sessions (srv : WebSocketServer) : WebSocketServer :=
  let srv1 := emit ALock (emit AStopListening (set_listening false srv)) in
  emit AUnlock (fold_left stop_step (map_to_list (_sessions srv1)) srv1).

Definition Stop (schedule : list (list IOEvent)) (srv : WebSocketServer)
  : option WebSocketServer :=
  if negb (is_listening srv) then
    Some (emit (ALog LOG_WARNING stop_warning) srv)
  else
    match stop_poll schedule (waitForDone (stop_close_sessions srv)) with
    | None => None
    | Some srv' => Some (emit (ALog LOG_INFO stop_success) (emit AJoin srv'))
    end.

(** *** [WebSocketServer::GetWebSocketSessions] *)

(** The state built for one entry of the table, handle included. *)
Definition session_state (it : connection_hdl * WebSocketSession)
  : WebSocketSessionState :=
  {| state_hdl := Some it.1;
     state_remoteAddress := RemoteAddress it.2;
     state_connectedAt := ConnectedAt it.2;
     state_incomingMessages := IncomingMessages it.2;
     state_outgoingMessages := OutgoingMessages it.2 |}.

(** The vector is filled under the mutex, in the order of the table. *)
Definition GetWebSocketSessions (srv : WebSocketServer)
  : list WebSocketSessionState * WebSocketServer :=
  let srv1 := emit ALock srv in
  (map session_state (map_to_list (_sessions srv1)), emit AUnlock srv1).

(** *** [WebSocketServer::InvalidateSession] *)

Definition invalidate_notice : string :=
  "[WebSocketServer::InvalidateSession] Invalidating a session.".

Definition invalidate_error_msg (e : string) : string :=
  "[WebSocketServer::InvalidateSession] Error: " +:+ e.

Definition invalidate_reason : string := "Your session has been invalidated.".

Definition InvalidateSession (hdl : connection_hdl) (srv : WebSocketServer)
  : WebSocketServer :=
  let conn := connections srv hdl in
  let srv1 := emit (APauseReading hdl) (emit (ALog LOG_INFO invalidate_notice) srv) in
  match pause_reading_error conn with
  | Some e => emit (ALog LOG_INFO (invalidate_error_msg e)) srv1
  | None =>
    let srv2 := emit (AClose hdl SessionInvalidated invalidate_reason) srv1 in
    match close_error conn with
    | Some e => emit (ALog LOG_INFO (invalidate_error_msg e)) srv2
    | None => srv2
    end
  end.

(** *** [WebSocketServer::Start] *)

(** The fields of the configuration object [Start] reads. *)
Record Config := {
  ServerPort : N;
  ServerPassword : string;
  DebugEnabled : bool;
  AuthRequired : bool
}.

(** The channel masks [Start] names, and the calls it makes on the access
    log and on the error log of the endpoint. *)
Inductive LogChannel :=
| alevel_all
| alevel_frame_header
| alevel_frame_payload
| alevel_control
| elevel_all
| elevel_info.

Inductive ChannelOp :=
| set_channels (mask : list LogChannel)
| clear_channels (mask : list LogChannel).

(** The members of the server [Start] writes besides those of
    [WebSocketServer]: the debug flag, the secret, the calls received by the
    two loggers, and whether [_serverThread] holds a running thread. *)
Record ServerHost := {
  server : WebSocketServer;
  _debugEnabled : bool;
  _authenticationSecret : string;
  alog : list ChannelOp;
  elog : list ChannelOp;
  _serverThread : bool
}.

Definition with_server (srv : WebSocketServer) (h : ServerHost) : ServerHost :=
  {| server := srv; _debugEnabled := _debugEnabled h;
     _authenticationSecret := _authenticationSecret h;
     alog := alog h; elog := elog h; _serverThread := _serverThread h |}.

Definition start_warning : string :=
  "[WebSocketServer::Start] Call to Start() but the server is already listening.".

Definition start_no_config : string :=
  "[WebSocketServer::Start] Unable to retreive config!".

Definition start_listen_failed (e : string) : string :=
  "[WebSocketServer::Start] Listen failed: " +:+ e.

Definition start_success (port : N) (address : string) : string :=
  "[WebSocketServer::Start] Server started successfully on port " +:+
  QString_number port +:+ ". Possible connect address: " +:+ address.

(** The assignments of [Start] on the members kept in [WebSocketServer]. *)
Definition capture_config (conf : Config) (salt : string)
  (srv : WebSocketServer) : WebSocketServer :=
  {| is_listening := is_listening srv; connections := connections srv;
     _sessions := _sessions srv; _serverPort := ServerPort conf;
     _serverPassword := ServerPassword conf;
     _authenticationRequired := AuthRequired conf;
     _authenticationSalt := salt;
     _threadPool := _threadPool srv; trace := trace srv |}.

(** [GenerateSecret] is [Utils::Crypto::GenerateSecret], which is not among
    the sources; [conf] is the result of [GetConfig()] ([None] for a null
    pointer), [salt] the value [GenerateSalt()] returns, [listen_error] the error code
    [listen] writes, [allAddresses] what the network interfaces report when
    the last log line asks for the local address. Assigning a thread to
    [_serverThread] while it still holds a running one ends the process:
    [Start] has no result then. *)
Definition Start (GenerateSecret : string → string → string)
  (conf : option Config) (salt : string)
  (listen_error : option string) (allAddresses : list QHostAddress)
  (h : ServerHost) : option ServerHost :=
  if is_listening (server h) then
    Some (with_server (emit (ALog LOG_WARNING start_warning) (server h)) h)
  else
    match conf with
    | None =>
      Some (with_server (emit (ALog LOG_ERROR start_no_config) (server h)) h)
    | Some conf =>
      let srv1 := capture_config conf salt (server h) in
      let secret := GenerateSecret (ServerPassword conf) salt in
      let alog' :=
        if DebugEnabled conf then
          alog h ++
          [set_channels [alevel_all];
           clear_channels
             [alevel_frame_header; alevel_frame_payload; alevel_control];
           clear_channels [elevel_info]]
        else alog h ++ [clear_channels [alevel_all]] in
      let elog' :=
        if DebugEnabled conf then elog h ++ [set_channels [elevel_all]]
        else elog h ++ [clear_channels [elevel_all]] in
      match listen_error with
      | Some e =>
        Some {| server := emit (ALog LOG_INFO (start_listen_failed e)) srv1;
                _debugEnabled := DebugEnabled conf;
                _authenticationSecret := secret;
                alog := alog'; elog := elog';
                _serverThread := _serverThread h |}
      | None =>
        if _serverThread h then None
        else
          Some {| server :=
                    emit (ALog LOG_INFO
                            (start_success (ServerPort conf)
                               (GetLocalAddress allAddresses)))
                      (set_listening true srv1);
                  _debugEnabled := DebugEnabled conf;
                  _authenticationSecret := secret;
                  alog := alog'; elog := elog';
                  _serverThread := true |}
      end
    end.

(** [Stop] on the whole object: the teardown joins [_serverThread], and
    [join] on a thread object that holds no thread throws. *)
Definition Stop_host (schedule : list (list IOEvent)) (h : ServerHost)
  : option ServerHost :=
  match Stop schedule (server h) with
  | None => None
  | Some srv' =>
    if is_listening (server h) then
      if _serverThread h then
        Some {| server := srv'; _debugEnabled := _debugEnabled h;
                _authenticationSecret := _authenticationSecret h;
                alog := alog h; elog := elog h; _serverThread := false |}
      else None
    else Some (with_server srv' h)
  end.

(** ** Vocabulary of the statements *)

(** The content types [onOpen] accepts. *)
Definition negotiable (contentType : string) : bool :=
  String.eqb contentType "" || String.eqb contentType "application/json"
  || String.eqb contentType "application/msgpack".

(** The encoding a session has after a successful negotiation. *)
Definition negotiated (contentType : string) (before : WebSocketEncoding)
  : WebSocketEncoding :=
  if String.eqb contentType "" then before
  else if String.eqb contentType "application/json" then Json
  else MsgPack.

(** The frame a broadcast of [msg] sends to one session: the buffer of the
    session's encoding. *)
Definition delivery (msg : json) (it : connection_hdl * WebSocketSession)
  : Action :=
  match Encoding it.2 with
  | Json => ASend it.1 (json_dump msg) text
  | MsgPack => ASend it.1 (json_to_msgpack msg) binary
  end.

(** The frames a broadcast sends while it walks the sessions [l]. *)
Definition deliveries (requiredIntent : Z) (msg : json)
  (l : list (connection_hdl * WebSocketSession)) : list Action :=
  l ≫= λ it,
    if IsIdentified it.2
       && negb (Z.eqb (Z.land (EventSubscriptions it.2) requiredIntent) 0)
    then [delivery msg it] else [].

(** The two buffers are empty or hold the serialization of [msg]. *)
Definition buffers_ok (msg : json) (acc : FanOut) : Prop :=
  (messageJson acc = "" ∨ messageJson acc = json_dump msg) ∧
  (messageMsgPack acc = "" ∨ messageMsgPack acc = json_to_msgpack msg).

(** What a handler or a loop turn may do to the server without touching
    the listener or the pool: it only adds actions to the trace. *)
Definition continues (srv srv' : WebSocketServer) : Prop :=
  is_listening srv' = is_listening srv ∧
  _threadPool srv' = _threadPool srv ∧
  trace srv `prefix_of` trace srv'.

(** The same server over a transport that answers differently. *)
Definition set_connections (conns : connection_hdl → Connection)
  (srv : WebSocketServer) : WebSocketServer :=
  {| is_listening := is_listening srv; connections := conns;
     _sessions := _sessions srv; _serverPort := _serverPort srv;
     _serverPassword := _serverPassword srv;
     _authenticationRequired := _authenticationRequired srv;
     _authenticationSalt := _authenticationSalt srv;
     _threadPool := _threadPool srv; trace := trace srv |}.

(** An interface address that passes the five tests of [GetLocalAddress]. *)
Definition usable (a : QHostAddress) : bool :=
  negb (isLocalHost a) && negb (isLocalHostIPv6 a) && negb (isLoopback a)
  && negb (isLinkLocal a) && negb (isNull a).

(** A session a broadcast of intent [r] is sent to. *)
Definition qualifies (r : Z) (s : WebSocketSession) : bool :=
  IsIdentified s && negb (Z.eqb (Z.land (EventSubscriptions s) r) 0).

(** What the loop of [Stop] does for one session, given its connection. *)
Definition stop_actions (conns : connection_hdl → Connection)
  (it : connection_hdl * WebSocketSession) : list Action :=
  APauseReading it.1 ::
  match pause_reading_error (conns it.1) with
  | Some e => [ALog LOG_INFO (stop_error_msg e)]
  | None =>
    AClose it.1 going_away "Server stopping." ::
    match close_error (conns it.1) with
    | Some e => [ALog LOG_INFO (stop_error_msg e)]
    | None => []
    end
  end.

(** The actions of one broadcast task over the table [sessions]. *)
Definition task_actions (sessions : gmap connection_hdl WebSocketSession)
  (task : BroadcastTask) : list Action :=
  [ALock] ++
  deliveries (task_requiredIntent task)
    (eventMessage (task_eventType task) (task_eventData task))
    (map_to_list sessions) ++ [AUnlock].

(** The last open or close handler a list of handler runs holds for the
    handle [h]: [Some true] for an open, [Some false] for a close. *)
Fixpoint last_lifecycle (h : connection_hdl) (events : list IOEvent)
  : option bool :=
  match events with
  | [] => None
  | e :: rest =>
    match last_lifecycle h rest with
    | Some b => Some b
    | None =>
      match e with
      | IOOpen h' _ _ => if decide (h' = h) then Some true else None
      | IOClose h' => if decide (h' = h) then Some false else None
      | IOMessage _ _ => None
      end
    end
  end.

Definition encoding_eqb (e e' : WebSocketEncoding) : bool :=
  match e, e' with
  | Json, Json | MsgPack, MsgPack => true
  | _, _ => false
  end.

(** Some session of [l] qualifies for the intent [r] and uses [e]. *)
Definition needs_encoding (r : Z) (e : WebSocketEncoding)
  (l : list (connection_hdl * WebSocketSession)) : bool :=
  existsb (λ it, qualifies r it.2 && encoding_eqb (Encoding it.2) e) l.

(** A batch of handler runs without any [onClose]. *)
Definition no_close (events : list IOEvent) : bool :=
  forallb (λ e, match e with IOClose _ => false | _ => true end) events.

(** ** Example configurations *)

(** Stand-ins for the two serializers, to run the handlers on examples. *)
Definition dump_stub (j : json) : string :=
  if is_object j then "{...}" else "null".

Definition msgpack_stub (j : json) : string :=
  if is_object j then "<map>" else "<nil>".

(** A connection that asked for [contentType] and whose sends end in
    [sendError]. *)
Definition example_connection (contentType : string)
  (sendError : option string) : Connection :=
  {| get_remote_endpoint := "192.168.1.20:51234";
     get_request_header :=
       λ name, if String.eqb name "Content-Type" then contentType else "";
     get_local_close_code := status_value 1000;
     send_error := sendError;
     pause_reading_error := None;
     close_error := None |}.

(** A listening server on port 4455 whose clients all look like [conn]. *)
Definition example_server (conn : Connection)
  (sessions : gmap connection_hdl WebSocketSession) (auth : bool)
  : WebSocketServer :=
  {| is_listening := true;
     connections := λ _, conn;
     _sessions := sessions;
     _serverPort := 4455;
     _serverPassword := "secret";
     _authenticationRequired := auth;
     _authenticationSalt := "c2FsdA==";
     _threadPool := [];
     trace := [] |}.

(** An identified session subscribed to the intents [subscriptions]. *)
Definition example_session (e : WebSocketEncoding) (subscriptions : Z)
  : WebSocketSession :=
  {| RemoteAddress := "192.168.1.20:51234";
     ConnectedAt := 1600000000;
     IncomingMessages := 0;
     OutgoingMessages := 0;
     Encoding := e;
     IsIdentified := true;
     EventSubscriptions := subscriptions;
     Challenge := "" |}.

Definition example_task : BroadcastTask :=
  {| task_requiredIntent := 2;
     task_eventType := "SceneChanged";
     task_eventData := JObject {[ "sceneName" := JString "Main" ]} |}.

Definition example_address : QHostAddress :=
  {| isLocalHost := false; isLocalHostIPv6 := false; isLoopback := false;
     isLinkLocal := false; isNull := false; toString := "192.168.1.20" |}.

Definition loopback_address : QHostAddress :=
  {| isLocalHost := true; isLocalHostIPv6 := false; isLoopback := true;
     isLinkLocal := false; isNull := false; toString := "127.0.0.1" |}.

(** A shutdown with two clients, closed by the I/O thread during the first
    two sleeps of the polling loop. *)
Definition example_schedule : list (list IOEvent) :=
  [[IOClose 7]; [IOMessage 8 "{}"; IOClose 8]; []].

Definition example_running : WebSocketServer :=
  example_server (example_connection "" None)
    {[ 7 := example_session Json 2; 8 := example_session MsgPack 1 ]} false.

(** A stopped server object with no thread, and a configuration. *)
Definition example_host : ServerHost :=
  {| server := set_listening false (example_server (example_connection "" None) ∅ false);
     _debugEnabled := false;
     _authenticationSecret := "";
     alog := []; elog := [];
     _serverThread := false |}.

Definition example_config : Config :=
  {| ServerPort := 4444; ServerPassword := "hunter2";
     DebugEnabled := true; AuthRequired := true |}.

(** A stand-in for the secret derivation. *)
Definition secret_stub (password salt : string) : string :=
  password +:+ ":" +:+ salt.

(** A connection whose reads cannot be paused. *)
Definition stuck_connection : Connection :=
  {| get_remote_endpoint := "10.0.0.9:40000";
     get_request_header := λ _, "";
     get_local_close_code := status_value 1006;
     send_error := None;
     pause_reading_error := Some "Bad Connection";
     close_error := None |}.

Definition private_address : QHostAddress :=
  {| isLocalHost := false; isLocalHostIPv6 := false; isLoopback := false;
     isLinkLocal := false; isNull := false; toString := "10.0.0.7" |}.

Definition public_address : QHostAddress :=
  {| isLocalHost := false; isLocalHostIPv6 := false; isLoopback := false;
     isLinkLocal := false; isNull := false; toString := "8.8.4.4" |}.

(** The whole object of the running example server. *)
Definition example_running_host : ServerHost :=
  {| server := example_running;
     _debugEnabled := false;
     _authenticationSecret := "";
     alog := []; elog := [];
     _serverThread := true |}.

(** * Properties *)

Local Ltac norm_trace := cbn [trace emit set_sessions set_trace set_listening
                              set_threadPool _sessions]; rewrite <- ?app_assoc;
                         cbn [app].

(** ** The connect string *)

Lemma findArgEscapes_plain (c : ascii) (rest : string) :
  Ascii.eqb c percent = false →
  findArgEscapes (String c rest) = TChar c :: findArgEscapes rest.
Proof. intros Hc. simpl. rewrite Hc. reflexivity. Qed.

(** A prefix without [%] is copied by [arg], which works on the rest. *)
Lemma QString_arg_prefix (p s a : string) :
  no_percent p = true → QString_arg (p +:+ s) a = p +:+ QString_arg s a.
Proof.
  induction p as [|c p IH]; intros Hp; [reflexivity|].
  simpl in Hp. apply andb_prop in Hp as [Hc Hp].
  apply negb_true_iff in Hc. specialize (IH Hp).
  unfold QString_arg in *.
  change (String c p +:+ s) with (String c (p +:+ s)).
  rewrite (findArgEscapes_plain c _ Hc). cbn [min_escape].
  destruct (min_escape (findArgEscapes (p +:+ s))) as [m|].
  - cbn [replaceArgEscapes]. now rewrite IH.
  - now rewrite IH.
Qed.

Lemma no_percent_digits (d : Decimal.uint) :
  no_percent (NilEmpty.string_of_uint d) = true.
Proof. induction d; simpl; auto. Qed.

Lemma no_percent_number (n : N) : no_percent (QString_number n) = true.
Proof.
  unfold QString_number, NilZero.string_of_uint.
  destruct (N.to_uint n); try reflexivity; apply no_percent_digits.
Qed.

Lemma string_app_empty_r (s : string) : s +:+ "" = s.
Proof.
  induction s as [|c s IH]; [reflexivity|].
  change (String c s +:+ "") with (String c (s +:+ "")). now rewrite IH.
Qed.

(** The filter and the sort only pick among the textual forms they are
    given: the local address is ["0.0.0.0"] or the text of an address. *)
Lemma sort_insert_elem (a b : string * N) (l : list (string * N)) :
  b ∈ sort_insert a l → b = a ∨ b ∈ l.
Proof.
  induction l as [|x l IH]; simpl.
  - rewrite list_elem_of_singleton. auto.
  - destruct (snd x <? snd a)%N; rewrite !elem_of_cons; [|tauto].
    intros [->|H]; [tauto|]. destruct (IH H); tauto.
Qed.

Lemma sort_by_priority_elem (b : string * N) (l : list (string * N)) :
  b ∈ sort_by_priority l → b ∈ l.
Proof.
  induction l as [|x l IH]; simpl; [tauto|].
  intros H. apply sort_insert_elem in H as [->|H]; [left|right; auto].
Qed.

Lemma validAddresses_elem (s : string) (l : list QHostAddress) :
  s ∈ validAddresses l → ∃ a, a ∈ l ∧ toString a = s.
Proof.
  induction l as [|x l IH]; simpl; [intros H; inversion H|].
  assert (Hrec : s ∈ validAddresses l → ∃ a, a ∈ x :: l ∧ toString a = s).
  { intros H. destruct (IH H) as (a & Ha & Hs). exists a. split; [now right|auto]. }
  repeat (match goal with |- context [if ?b then _ else _] => destruct b end;
          [exact Hrec|]).
  rewrite elem_of_cons. intros [->|H]; [|auto].
  exists x. split; [left|reflexivity].
Qed.

Lemma GetLocalAddress_elem (l : list QHostAddress) :
  GetLocalAddress l = "0.0.0.0" ∨ ∃ a, a ∈ l ∧ toString a = GetLocalAddress l.
Proof.
  unfold GetLocalAddress.
  destruct (length (validAddresses l) =? 0)%nat; [now left|].
  destruct (sort_by_priority (preferredAddresses (validAddresses l)))
    as [|best rest] eqn:E; [now left|right].
  assert (Hb : best ∈ preferredAddresses (validAddresses l)).
  { apply sort_by_priority_elem. rewrite E. left. }
  unfold preferredAddresses in Hb. apply list_elem_of_fmap in Hb as (s & -> & Hs).
  simpl. now apply validAddresses_elem.
Qed.

(** When no interface address contains a [%], neither does the local
    address. *)
Lemma GetLocalAddress_no_percent (l : list QHostAddress) :
  (∀ a, a ∈ l → no_percent (toString a) = true) →
  no_percent (GetLocalAddress l) = true.
Proof.
  intros H. destruct (GetLocalAddress_elem l) as [->|(a & Ha & <-)]; auto.
Qed.

(** C9: [GetConnectString] returns ["obswebsocket|<ip>:<port>"], with no
    password segment, when authentication is disabled, and
    ["obswebsocket|<ip>:<port>|<password>"] when it is enabled; [<ip>] is
    the result of [GetLocalAddress] (free of the marker character [%], as
    the text of an IP address is) and [<port>] is the port in base ten. *)
Theorem GetConnectString_form (allAddresses : list QHostAddress)
  (srv : WebSocketServer) :
  no_percent (GetLocalAddress allAddresses) = true →
  GetConnectString allAddresses srv =
    if _authenticationRequired srv then
      "obswebsocket|" +:+ GetLocalAddress allAddresses +:+ ":" +:+
      QString_number (_serverPort srv) +:+ "|" +:+ _serverPassword srv
    else
      "obswebsocket|" +:+ GetLocalAddress allAddresses +:+ ":" +:+
      QString_number (_serverPort srv).
Proof.
  intros Haddr. unfold GetConnectString, QString_arg_num.
  set (addr := GetLocalAddress allAddresses) in *.
  set (port := QString_number (_serverPort srv)).
  assert (Hport : no_percent port = true) by apply no_percent_number.
  destruct (_authenticationRequired srv).
  - change (QString_arg "obswebsocket|%1:%2|%3" addr)
      with ("obswebsocket|" +:+ addr +:+ ":%2|%3").
    rewrite (QString_arg_prefix "obswebsocket|") by reflexivity.
    rewrite (QString_arg_prefix addr) by assumption.
    change (QString_arg ":%2|%3" port) with (":" +:+ port +:+ "|%3").
    rewrite (QString_arg_prefix "obswebsocket|") by reflexivity.
    rewrite (QString_arg_prefix addr) by assumption.
    rewrite (QString_arg_prefix ":") by reflexivity.
    rewrite (QString_arg_prefix port) by assumption.
    change (QString_arg "|%3" (_serverPassword srv))
      with ("|" +:+ _serverPassword srv +:+ "").
    now rewrite string_app_empty_r.
  - change (QString_arg "obswebsocket|%1:%2" addr)
      with ("obswebsocket|" +:+ addr +:+ ":%2").
    rewrite (QString_arg_prefix "obswebsocket|") by reflexivity.
    rewrite (QString_arg_prefix addr) by assumption.
    change (QString_arg ":%2" port) with (":" +:+ port +:+ "").
    now rewrite string_app_empty_r.
Qed.

(** ** The lifecycle handlers *)

(** What [onClose] does to the table and to the trace. *)
Lemma onClose_spec (hdl : connection_hdl) (srv : WebSocketServer) :
  _sessions (onClose hdl srv) = delete hdl (_sessions srv) ∧
  trace (onClose hdl srv) =
    trace srv ++
    [ALock; AErase hdl; AUnlock;
     AClientDisconnected (snapshot (session_at hdl (_sessions srv)))
       (get_local_close_code (connections srv hdl))] ++
    (if IsIdentified (session_at hdl (_sessions srv))
     then [AIdentifiedClientDisconnected
             (snapshot (session_at hdl (_sessions srv)))
             (get_local_close_code (connections srv hdl))]
     else []).
Proof.
  unfold onClose.
  destruct (IsIdentified _); split; try reflexivity; now norm_trace.
Qed.


(** C10: for a handle without an entry in the table, [onClose] still emits
    [ClientDisconnected], with the snapshot of a default-constructed session
    (empty address, zero time and counters), emits no
    [IdentifiedClientDisconnected], and leaves the table as it was, without
    an entry for the handle. *)
Theorem onClose_unknown_handle (hdl : connection_hdl) (srv : WebSocketServer) :
  _sessions srv !! hdl = None →
  trace (onClose hdl srv) =
    trace srv ++
    [ALock; AErase hdl; AUnlock;
     AClientDisconnected
       {| state_hdl := None; state_remoteAddress := "";
          state_connectedAt := 0; state_incomingMessages := 0;
          state_outgoingMessages := 0 |}
       (get_local_close_code (connections srv hdl))] ∧
  _sessions (onClose hdl srv) !! hdl = None ∧
  _sessions (onClose hdl srv) = _sessions srv.
Proof.
  intros Hnone.
  destruct (onClose_spec hdl srv) as [Hs Ht]. rewrite Hs, Ht.
  unfold session_at. rewrite Hnone. cbn.
  split; [reflexivity|]. split; [apply lookup_delete_eq|].
  now apply delete_id.
Qed.

Lemma onOpen_greet_trace hdl c session srv :
  trace (onOpen_greet hdl c session srv) =
    trace srv ++
    [match Encoding session with
     | Json =>
       ASend hdl
         (json_dump (helloMessage (_authenticationRequired srv) c
                                  (_authenticationSalt srv))) text
     | MsgPack =>
       ASend hdl
         (json_to_msgpack (helloMessage (_authenticationRequired srv) c
                                        (_authenticationSalt srv))) binary
     end].
Proof.
  unfold onOpen_greet.
  destruct (_authenticationRequired srv); cbn [Encoding SetChallenge];
    destruct (Encoding session); reflexivity.
Qed.

Lemma onOpen_greet_sessions hdl c session srv :
  _sessions (onOpen_greet hdl c session srv) =
    <[hdl := if _authenticationRequired srv then SetChallenge c session
             else session]> (_sessions srv).
Proof.
  unfold onOpen_greet.
  destruct (_authenticationRequired srv); cbn [Encoding SetChallenge];
    destruct (Encoding session); reflexivity.
Qed.

Lemma helloMessage_members (auth : bool) (c salt : string) :
  json_member "messageType" (helloMessage auth c salt) = Some (JString "Hello") ∧
  json_member "obsWebSocketVersion" (helloMessage auth c salt) =
    Some (JString OBS_WEBSOCKET_VERSION) ∧
  json_member "rpcVersion" (helloMessage auth c salt) =
    Some (JNumber OBS_WEBSOCKET_RPC_VERSION) ∧
  json_member "authentication" (helloMessage auth c salt) =
    if auth
    then Some (JObject (<["salt" := JString salt]>
                          {["challenge" := JString c]}))
    else None.
Proof.
  unfold helloMessage. destruct auth; cbn [json_set json_get json_member];
    repeat split; by simplify_map_eq.
Qed.

(** What [onOpen] does to the table: the entry of the handle is written,
    and the setters it goes through leave the two counters, the
    identification flag and the subscriptions alone. *)
Lemma onOpen_sessions hdl now c srv :
  ∃ session,
    _sessions (onOpen hdl now c srv) = <[hdl := session]> (_sessions srv) ∧
    IncomingMessages session =
      IncomingMessages (session_at hdl (_sessions srv)) ∧
    OutgoingMessages session =
      OutgoingMessages (session_at hdl (_sessions srv)) ∧
    IsIdentified session = IsIdentified (session_at hdl (_sessions srv)) ∧
    EventSubscriptions session =
      EventSubscriptions (session_at hdl (_sessions srv)).
Proof.
  unfold onOpen.
  repeat match goal with
         | |- context [if String.eqb ?a ?b then _ else _] =>
           destruct (String.eqb a b)
         end;
    rewrite ?onOpen_greet_sessions;
    cbn [_sessions _authenticationRequired emit set_sessions];
    rewrite insert_insert_eq;
    try destruct (_authenticationRequired srv);
    eexists; (split; [reflexivity|]); repeat split.
Qed.

(** C7: when the content type is absent, ["application/json"] or
    ["application/msgpack"], the only frame [onOpen] sends is the [Hello]
    greeting, once, in the encoding the session has after the negotiation:
    a text frame holding the JSON dump for [Json], a binary frame holding
    the MessagePack bytes for [MsgPack]. The greeting holds [messageType],
    [obsWebSocketVersion] and [rpcVersion]; it holds an [authentication]
    object, made of the challenge stored in the session and of the salt,
    exactly when authentication is required. *)
Theorem onOpen_sends_hello (hdl : connection_hdl) (now : Z) (c : string)
  (srv : WebSocketServer) :
  let contentType := get_request_header (connections srv hdl) "Content-Type" in
  let hello :=
    helloMessage (_authenticationRequired srv) c (_authenticationSalt srv) in
  negotiable contentType = true →
  ∃ session,
    _sessions (onOpen hdl now c srv) !! hdl = Some session ∧
    Encoding session =
      negotiated contentType (Encoding (session_at hdl (_sessions srv))) ∧
    trace (onOpen hdl now c srv) =
      trace srv ++
      [ALock; AUnlock;
       match Encoding session with
       | Json => ASend hdl (json_dump hello) text
       | MsgPack => ASend hdl (json_to_msgpack hello) binary
       end] ∧
    json_member "messageType" hello = Some (JString "Hello") ∧
    json_member "obsWebSocketVersion" hello =
      Some (JString OBS_WEBSOCKET_VERSION) ∧
    json_member "rpcVersion" hello = Some (JNumber OBS_WEBSOCKET_RPC_VERSION) ∧
    (is_Some (json_member "authentication" hello) ↔
     _authenticationRequired srv = true) ∧
    (_authenticationRequired srv = true →
     Challenge session = c ∧
     json_member "authentication" hello =
       Some (JObject (<["salt" := JString (_authenticationSalt srv)]>
                        {["challenge" := JString c]}))).
Proof.
  intros contentType hello Hneg.
  destruct (helloMessage_members (_authenticationRequired srv) c
              (_authenticationSalt srv)) as (Hm & Hv & Hr & Ha).
  fold hello in Hm, Hv, Hr, Ha.
  assert (Hauth : (is_Some (json_member "authentication" hello) ↔
                   _authenticationRequired srv = true) ∧
                  (_authenticationRequired srv = true →
                   json_member "authentication" hello =
                     Some (JObject (<["salt" := JString (_authenticationSalt srv)]>
                                      {["challenge" := JString c]})))).
  { rewrite Ha. destruct (_authenticationRequired srv).
    - split; [split; [done|eauto]|done].
    - split; [split; [intros [? ?]; done|done]|done]. }
  destruct Hauth as [Hiff Hreq].
  unfold onOpen, negotiable, negotiated in *. fold contentType.
  set (session1 := SetConnectedAt _ _).
  assert (Henc1 : Encoding session1 = Encoding (session_at hdl (_sessions srv)))
    by reflexivity.
  destruct (String.eqb contentType "") eqn:E1;
    [|destruct (String.eqb contentType "application/json") eqn:E2;
      [|destruct (String.eqb contentType "application/msgpack") eqn:E3;
        [|discriminate]]];
    rewrite onOpen_greet_trace, onOpen_greet_sessions;
    cbn [_authenticationRequired _authenticationSalt trace _sessions emit
         set_sessions];
    (eexists; split; [apply lookup_insert_eq|]);
    (split; [destruct (_authenticationRequired srv); done|]);
    (split; [rewrite <- !app_assoc; fold hello;
             destruct (_authenticationRequired srv); done|]);
    repeat (split; [done|]);
    intros Hreq'; (split; [rewrite Hreq'; done|auto]).
Qed.

(** C1: when the [Content-Type] header is present (its value is not empty)
    and is neither ["application/json"] nor ["application/msgpack"],
    [onOpen] closes the connection with [InvalidContentType] and sends
    nothing, so the close comes before any greeting. The entry of the
    connection, with only the address and the connection time written, is
    in the table until the close handler [onClose] runs for the handle;
    afterwards the table has no entry for it. *)
Theorem onOpen_invalid_content_type (hdl : connection_hdl) (now : Z)
  (c : string) (srv : WebSocketServer) :
  let contentType := get_request_header (connections srv hdl) "Content-Type" in
  contentType ≠ "" →
  contentType ≠ "application/json" →
  contentType ≠ "application/msgpack" →
  trace (onOpen hdl now c srv) =
    trace srv ++
    [ALock; AUnlock; AClose hdl InvalidContentType invalid_content_type_reason] ∧
  _sessions (onOpen hdl now c srv) !! hdl =
    Some (SetConnectedAt (now mod 2 ^ 64)
            (SetRemoteAddress (get_remote_endpoint (connections srv hdl))
               (session_at hdl (_sessions srv)))) ∧
  _sessions (onClose hdl (onOpen hdl now c srv)) !! hdl = None.
Proof.
  intros contentType E1 E2 E3.
  apply String.eqb_neq in E1, E2, E3. unfold contentType in *.
  split; [|split].
  - unfold onOpen. rewrite E1, E2, E3. now norm_trace.
  - unfold onOpen. rewrite E1, E2, E3. cbn [_sessions emit set_sessions].
    apply lookup_insert_eq.
  - destruct (onClose_spec hdl (onOpen hdl now c srv)) as [-> _].
    apply lookup_delete_eq.
Qed.

(** C2, as the code has it: the server never changes a counter.
    [onMessage] has an empty body and returns the server as it was; the
    greeting of [onOpen] and the deliveries of a broadcast leave
    [incomingMessages] and [outgoingMessages] of every session as they
    were. *)
Theorem counters_never_incremented (hdl h : connection_hdl) (now : Z)
  (c message : string) (task : BroadcastTask) (srv : WebSocketServer) :
  onMessage hdl message srv = srv ∧
  IncomingMessages (session_at h (_sessions (onOpen hdl now c srv))) =
    IncomingMessages (session_at h (_sessions srv)) ∧
  OutgoingMessages (session_at h (_sessions (onOpen hdl now c srv))) =
    OutgoingMessages (session_at h (_sessions srv)) ∧
  _sessions (run_broadcast task srv) = _sessions srv.
Proof.
  split; [reflexivity|].
  destruct (onOpen_sessions hdl now c srv) as (s & -> & Hi & Ho & _).
  unfold session_at in *.
  destruct (decide (hdl = h)) as [->|Hne].
  - rewrite lookup_insert_eq. cbn [default]. auto.
  - rewrite lookup_insert_ne by done. auto.
Qed.

(** ** The broadcast fan-out *)

Lemma lazy_buffer (buf s : string) :
  buf = "" ∨ buf = s → (if string_empty buf then s else buf) = s.
Proof. intros [->| ->]; [reflexivity|]. now destruct (string_empty s). Qed.

Lemma deliveries_cons r msg it l :
  deliveries r msg (it :: l) = deliveries r msg [it] ++ deliveries r msg l.
Proof.
  unfold deliveries. cbn [mbind list_bind]. by rewrite app_nil_r.
Qed.

Lemma broadcast_step_performed r msg acc it :
  buffers_ok msg acc →
  buffers_ok msg (broadcast_step r msg acc it) ∧
  performed (broadcast_step r msg acc it) =
    performed acc ++ deliveries r msg [it].
Proof.
  intros [Hj Hm]. unfold broadcast_step, deliveries, delivery.
  cbn [mbind list_bind]. rewrite app_nil_r.
  destruct (IsIdentified it.2); cbn [negb andb];
    [|split; [done|by rewrite app_nil_r]].
  destruct (negb _); [|split; [done|by rewrite app_nil_r]].
  destruct (Encoding it.2); cbn [messageJson messageMsgPack performed].
  - rewrite (lazy_buffer _ _ Hj). split; [split; auto|done].
  - rewrite (lazy_buffer _ _ Hm). split; [split; auto|done].
Qed.

Lemma broadcast_loop_performed r msg l : ∀ acc,
  buffers_ok msg acc →
  performed (broadcast_loop r msg l acc) = performed acc ++ deliveries r msg l.
Proof.
  unfold broadcast_loop.
  induction l as [|it l IH]; intros acc Hacc; cbn [fold_left].
  - unfold deliveries. cbn. by rewrite app_nil_r.
  - destruct (broadcast_step_performed r msg acc it Hacc) as [Hok Hp].
    by rewrite (IH _ Hok), Hp, <- app_assoc, (deliveries_cons r msg it l).
Qed.

(** The actions of one broadcast task: the mutex, and between its taking
    and its release one frame per qualifying session. *)
Lemma run_broadcast_trace task srv :
  trace (run_broadcast task srv) =
    trace srv ++ [ALock] ++
    deliveries (task_requiredIntent task)
      (eventMessage (task_eventType task) (task_eventData task))
      (map_to_list (_sessions srv)) ++ [AUnlock].
Proof.
  unfold run_broadcast. cbn [trace emit set_trace _sessions].
  rewrite broadcast_loop_performed by (split; by left).
  cbn [performed]. by rewrite <- !app_assoc.
Qed.

Lemma elem_of_deliveries r msg l a :
  a ∈ deliveries r msg l ↔
  ∃ it, it ∈ l ∧ IsIdentified it.2 = true ∧
        Z.land (EventSubscriptions it.2) r ≠ 0%Z ∧ a = delivery msg it.
Proof.
  unfold deliveries. rewrite list_elem_of_bind. split.
  - intros (it & Ha & Hit). exists it. split; [done|].
    destruct (IsIdentified it.2); cbn [andb] in Ha; [|by inversion Ha].
    destruct (Z.eqb_spec (Z.land (EventSubscriptions it.2) r) 0);
      cbn [negb] in Ha; [by inversion Ha|].
    apply list_elem_of_singleton in Ha. done.
  - intros (it & Hit & Hid & Hsub & ->). exists it. split; [|done].
    rewrite Hid. apply Z.eqb_neq in Hsub. rewrite Hsub. cbn. left.
Qed.

Lemma delivery_hdl msg it it' : delivery msg it = delivery msg it' → it.1 = it'.1.
Proof.
  unfold delivery. destruct (Encoding it.2), (Encoding it'.2); congruence.
Qed.

Lemma NoDup_deliveries r msg l : NoDup l.*1 → NoDup (deliveries r msg l).
Proof.
  induction l as [|it l IH]; intros Hnd.
  - unfold deliveries. cbn. constructor.
  - apply NoDup_cons in Hnd as [Hnotin Hnd].
    rewrite (deliveries_cons r msg it l).
    apply NoDup_app. split; [|split; [|auto]].
    + unfold deliveries. cbn [mbind list_bind]. rewrite app_nil_r.
      destruct (_ && _); [apply NoDup_singleton|constructor].
    + intros a Ha Ha'.
      apply elem_of_deliveries in Ha as (x & Hx & _ & _ & ->).
      apply list_elem_of_singleton in Hx as ->.
      apply elem_of_deliveries in Ha' as (y & Hy & _ & _ & Heq).
      apply delivery_hdl in Heq. apply Hnotin. rewrite Heq.
      apply list_elem_of_fmap. eauto.
Qed.

(** C3: in the iteration a broadcast task makes under the mutex, a session
    of the table is sent the event if and only if it is identified and its
    subscriptions meet the required intent; it is sent once, and the frame
    is the one of its encoding: the JSON dump as text for [Json], the
    MessagePack bytes as binary for [MsgPack]. *)
Theorem run_broadcast_recipients (task : BroadcastTask) (srv : WebSocketServer) :
  let msg := eventMessage (task_eventType task) (task_eventData task) in
  ∃ sends,
    trace (run_broadcast task srv) = trace srv ++ [ALock] ++ sends ++ [AUnlock] ∧
    NoDup sends ∧
    ∀ a, a ∈ sends ↔
         ∃ hdl s, _sessions srv !! hdl = Some s ∧
                  IsIdentified s = true ∧
                  Z.land (EventSubscriptions s) (task_requiredIntent task) ≠ 0%Z ∧
                  a = match Encoding s with
                      | Json => ASend hdl (json_dump msg) text
                      | MsgPack => ASend hdl (json_to_msgpack msg) binary
                      end.
Proof.
  intros msg. eexists. split; [apply run_broadcast_trace|]. split.
  - apply NoDup_deliveries, NoDup_fst_map_to_list.
  - intros a. rewrite elem_of_deliveries. fold msg. split.
    + intros ([hdl s] & Hin & Hid & Hsub & ->).
      apply elem_of_map_to_list in Hin. exists hdl, s. done.
    + intros (hdl & s & Hin & Hid & Hsub & ->).
      exists (hdl, s). rewrite elem_of_map_to_list. done.
Qed.

(** C4, as the code has it: the error code of a send is never read, so a
    failed send is not logged (a broadcast logs nothing at all). What the
    task does is the same whatever the transport answers, for this send or
    any other: every qualifying session is sent its frame. *)
Theorem run_broadcast_ignores_send_errors (task : BroadcastTask)
  (srv : WebSocketServer) :
  ∃ sends,
    trace (run_broadcast task srv) = trace srv ++ [ALock] ++ sends ++ [AUnlock] ∧
    (∀ level m, ALog level m ∉ sends) ∧
    (∀ hdl s, _sessions srv !! hdl = Some s →
              IsIdentified s = true →
              Z.land (EventSubscriptions s) (task_requiredIntent task) ≠ 0%Z →
              ∃ payload op, ASend hdl payload op ∈ sends) ∧
    (∀ conns,
       trace (run_broadcast task (set_connections conns srv)) =
         trace srv ++ [ALock] ++ sends ++ [AUnlock]).
Proof.
  eexists. split; [apply run_broadcast_trace|]. split; [|split].
  - intros level m Hin.
    apply elem_of_deliveries in Hin as (it & _ & _ & _ & Heq).
    unfold delivery in Heq. destruct (Encoding it.2); discriminate.
  - intros hdl s Hin Hid Hsub.
    assert (Hd : delivery (eventMessage (task_eventType task)
                             (task_eventData task)) (hdl, s) ∈
                 deliveries (task_requiredIntent task)
                   (eventMessage (task_eventType task) (task_eventData task))
                   (map_to_list (_sessions srv))).
    { apply elem_of_deliveries. exists (hdl, s).
      rewrite elem_of_map_to_list. done. }
    unfold delivery in Hd. cbn [fst snd] in Hd.
    destruct (Encoding s); eauto.
  - intros conns. apply (run_broadcast_trace task (set_connections conns srv)).
Qed.

(** ** The shutdown *)

Lemma continues_refl srv : continues srv srv.
Proof. by repeat split. Qed.

Lemma continues_trans a b c : continues a b → continues b c → continues a c.
Proof.
  intros (Hl & Hp & Ht) (Hl' & Hp' & Ht'). repeat split; try congruence.
  by etrans.
Qed.

Lemma continues_emit a srv : continues srv (emit a srv).
Proof. repeat split. by apply prefix_app_r. Qed.

Lemma onOpen_continues hdl now c srv : continues srv (onOpen hdl now c srv).
Proof.
  unfold onOpen, onOpen_greet.
  repeat match goal with
         | |- context [if ?b then _ else _] => destruct b
         | |- context [match ?e with Json => _ | MsgPack => _ end] => destruct e
         end;
    (repeat split; cbn [trace emit set_sessions]; rewrite <- ?app_assoc;
     by apply prefix_app_r).
Qed.

Lemma onClose_continues hdl srv : continues srv (onClose hdl srv).
Proof.
  unfold onClose. destruct (IsIdentified _);
    (repeat split; cbn [trace emit set_sessions]; rewrite <- ?app_assoc;
     by apply prefix_app_r).
Qed.

Lemma run_io_continues events : ∀ srv, continues srv (run_io events srv).
Proof.
  unfold run_io. induction events as [|e events IH]; intros srv; cbn [fold_left].
  - apply continues_refl.
  - eapply continues_trans; [|apply IH].
    destruct e; cbn [run_io_event];
      [apply onOpen_continues|apply onClose_continues|apply continues_refl].
Qed.

(** The polling loop only returns on an empty table. *)
Lemma stop_poll_returns schedule : ∀ srv srv',
  stop_poll schedule srv = Some srv' →
  _sessions srv' = ∅ ∧ continues srv srv'.
Proof.
  induction schedule as [|events schedule IH]; intros srv srv';
    cbn [stop_poll]; destruct (Nat.ltb_spec 0 (size (_sessions srv))) as [Hlt|Hge];
    intros Hret; try discriminate.
  - injection Hret as <-. split; [|apply continues_refl].
    apply map_size_empty_inv. lia.
  - apply IH in Hret as [Hempty Hcont]. split; [done|].
    eapply continues_trans; [|exact Hcont].
    eapply continues_trans; [apply continues_emit|apply run_io_continues].
  - injection Hret as <-. split; [|apply continues_refl].
    apply map_size_empty_inv. lia.
Qed.

Lemma stop_step_fold l : ∀ srv,
  let srv' := fold_left stop_step l srv in
  is_listening srv' = is_listening srv ∧ _threadPool srv' = _threadPool srv ∧
  _sessions srv' = _sessions srv ∧ ∃ closes, trace srv' = trace srv ++ closes.
Proof.
  induction l as [|it l IH]; intros srv; cbn [fold_left].
  - repeat split. exists []. by rewrite app_nil_r.
  - destruct (IH (stop_step srv it)) as (Hl & Hp & Hs & closes & Ht).
    cbn zeta. rewrite Hl, Hp, Hs, Ht. unfold stop_step.
    destruct (pause_reading_error _); [|destruct (close_error _)];
      (repeat split; eexists; cbn [trace emit]; by rewrite <- !app_assoc).
Qed.

Lemma stop_close_sessions_spec srv :
  let srv' := stop_close_sessions srv in
  is_listening srv' = false ∧ _threadPool srv' = _threadPool srv ∧
  _sessions srv' = _sessions srv ∧
  ∃ closes,
    trace srv' = trace srv ++ [AStopListening; ALock] ++ closes ++ [AUnlock].
Proof.
  unfold stop_close_sessions.
  set (srv1 := emit ALock (emit AStopListening (set_listening false srv))).
  destruct (stop_step_fold (map_to_list (_sessions srv1)) srv1)
    as (Hl & Hp & Hs & closes & Ht).
  set (closed := fold_left stop_step (map_to_list (_sessions srv1)) srv1) in *.
  cbn zeta. cbn [is_listening _threadPool _sessions trace emit].
  rewrite Hl, Hp, Hs, Ht. repeat split. exists closes.
  unfold srv1. cbn [trace emit set_listening]. by rewrite <- !app_assoc.
Qed.

Lemma run_tasks_fold tasks : ∀ srv,
  let srv' := fold_left (λ s task, run_broadcast task s) tasks srv in
  is_listening srv' = is_listening srv ∧ _sessions srv' = _sessions srv ∧
  ∃ sent, trace srv' = trace srv ++ sent.
Proof.
  induction tasks as [|task tasks IH]; intros srv; cbn [fold_left].
  - repeat split. exists []. by rewrite app_nil_r.
  - destruct (IH (run_broadcast task srv)) as (Hl & Hs & sent & Ht).
    cbn zeta. rewrite Hl, Hs, Ht, run_broadcast_trace.
    repeat split. eexists. by rewrite <- !app_assoc.
Qed.

(** [waitForDone] returns with an empty pool: every queued task has run,
    after the call began. *)
Lemma waitForDone_spec srv :
  let srv' := waitForDone srv in
  is_listening srv' = is_listening srv ∧ _threadPool srv' = [] ∧
  _sessions srv' = _sessions srv ∧
  ∃ draining, trace srv' = trace srv ++ [AWaitForDone] ++ draining.
Proof.
  unfold waitForDone.
  destruct (run_tasks_fold (_threadPool srv) (emit AWaitForDone srv))
    as (Hl & Hs & sent & Ht).
  set (ran := fold_left _ (_threadPool srv) (emit AWaitForDone srv)) in *.
  cbn zeta. cbn [is_listening _threadPool _sessions trace set_threadPool].
  rewrite Hl, Hs, Ht. repeat split. exists sent.
  cbn [trace emit]. by rewrite <- !app_assoc.
Qed.

(** A call of [Stop] that returns leaves the listener stopped. *)
Lemma Stop_not_listening schedule srv srv' :
  Stop schedule srv = Some srv' → is_listening srv' = false.
Proof.
  unfold Stop. destruct (is_listening srv) eqn:El; cbn [negb].
  - destruct (stop_poll _ _) as [polled|] eqn:Ep; [|discriminate].
    intros [= <-]. apply stop_poll_returns in Ep as (_ & Hl & _).
    cbn [is_listening emit]. rewrite Hl.
    destruct (waitForDone_spec (stop_close_sessions srv)) as (-> & _).
    by destruct (stop_close_sessions_spec srv) as (-> & _).
  - by intros [= <-].
Qed.

(** The course of a call of [Stop] that returns, on a listening server. *)
Lemma Stop_returns schedule srv srv' :
  is_listening srv = true →
  Stop schedule srv = Some srv' →
  ∃ polled closes draining polling,
    stop_poll schedule (waitForDone (stop_close_sessions srv)) = Some polled ∧
    _sessions polled = ∅ ∧
    _threadPool polled = [] ∧
    srv' = emit (ALog LOG_INFO stop_success) (emit AJoin polled) ∧
    trace polled =
      trace srv ++ [AStopListening; ALock] ++ closes ++ [AUnlock] ++
      [AWaitForDone] ++ draining ++ polling.
Proof.
  intros Hlisten. unfold Stop. rewrite Hlisten. cbn [negb].
  destruct (stop_poll _ _) as [polled|] eqn:Ep; [|discriminate].
  intros [= <-].
  destruct (stop_close_sessions_spec srv) as (_ & _ & _ & closes & Hc).
  destruct (waitForDone_spec (stop_close_sessions srv))
    as (_ & Hpool & _ & draining & Hd).
  destruct (stop_poll_returns _ _ _ Ep) as (Hempty & _ & Hp & polling & Ht).
  exists polled, closes, draining, polling.
  split; [done|]. split; [done|]. split; [congruence|]. split; [done|].
  rewrite Ht, Hd, Hc. by rewrite <- !app_assoc.
Qed.

(** Progress: [Stop] does return once the I/O thread has run [onClose] for
    every session of the table, here during the first sleep. *)
Lemma run_io_closes l : ∀ srv,
  _sessions (run_io (map IOClose l) srv) =
    fold_left (λ m h, delete h m) l (_sessions srv).
Proof.
  unfold run_io.
  induction l as [|h l IH]; intros srv; cbn [map fold_left]; [done|].
  rewrite IH. cbn [run_io_event]. by destruct (onClose_spec h srv) as [-> _].
Qed.

Lemma fold_delete_lookup (l : list connection_hdl) :
  ∀ (m : gmap connection_hdl WebSocketSession) k,
    k ∈ l ∨ m !! k = None → fold_left (λ m h, delete h m) l m !! k = None.
Proof.
  induction l as [|h l IH]; intros m k Hk; cbn [fold_left].
  - destruct Hk as [Hk|Hk]; [by apply elem_of_nil in Hk|done].
  - apply IH. destruct Hk as [Hk|Hk].
    + apply elem_of_cons in Hk as [->|Hk]; [right|by left].
      apply lookup_delete_eq.
    + right. rewrite lookup_delete_None. by right.
Qed.

Lemma stop_poll_empty schedule srv :
  _sessions srv = ∅ → stop_poll schedule srv = Some srv.
Proof.
  intros Hempty. destruct schedule; cbn [stop_poll];
    by rewrite Hempty, map_size_empty.
Qed.

(** X20: [Stop] returns as soon as the I/O thread has run [onClose] for
    every session of the table: when this happens during the first sleep of
    the polling loop, [Stop] has a result whatever the rest of the
    schedule. *)
Lemma Stop_returns_once_closed (rest : list (list IOEvent))
  (srv : WebSocketServer) :
  ∃ srv',
    Stop (map IOClose (map_to_list (_sessions srv)).*1 :: rest) srv = Some srv'.
Proof.
  unfold Stop. destruct (is_listening srv); cbn [negb]; [|eauto].
  destruct (stop_close_sessions_spec srv) as (_ & _ & Hs & _).
  destruct (waitForDone_spec (stop_close_sessions srv)) as (_ & _ & Hs' & _).
  set (drained := waitForDone (stop_close_sessions srv)) in *.
  cbn [stop_poll]. destruct (0 <? size (_sessions drained))%nat; [|eauto].
  rewrite stop_poll_empty; [eauto|].
  apply map_eq. intros k. rewrite run_io_closes, lookup_empty.
  apply fold_delete_lookup. cbn [_sessions emit]. rewrite Hs', Hs.
  destruct (_sessions srv !! k) as [session|] eqn:Ek; [left|by right].
  apply list_elem_of_fmap. exists (k, session).
  by rewrite elem_of_map_to_list.
Qed.

(** C5: when [Stop] returns after the server was listening, the session
    table is empty and a broadcast sends nothing any more. On the way,
    [waitForDone] was called after the sessions were closed and returned
    with an empty pool, and the polling loop went on until it saw an empty
    table; the join of the I/O thread comes after both. The handlers running
    on the I/O thread while [Stop] sleeps are those of [schedule]. *)
Theorem Stop_drains (schedule : list (list IOEvent))
  (srv srv' : WebSocketServer) :
  is_listening srv = true →
  Stop schedule srv = Some srv' →
  ∃ polled closes draining polling,
    _threadPool (waitForDone (stop_close_sessions srv)) = [] ∧
    stop_poll schedule (waitForDone (stop_close_sessions srv)) = Some polled ∧
    _sessions polled = ∅ ∧
    srv' = emit (ALog LOG_INFO stop_success) (emit AJoin polled) ∧
    trace srv' =
      trace srv ++ [AStopListening; ALock] ++ closes ++ [AUnlock] ++
      [AWaitForDone] ++ draining ++ polling ++
      [AJoin; ALog LOG_INFO stop_success] ∧
    _sessions srv' = ∅ ∧
    _threadPool srv' = [] ∧
    ∀ task, trace (run_broadcast task srv') = trace srv' ++ [ALock; AUnlock].
Proof.
  intros Hlisten Hstop.
  destruct (Stop_returns _ _ _ Hlisten Hstop)
    as (polled & closes & draining & polling & Ep & Hempty & Hp & -> & Ht).
  destruct (waitForDone_spec (stop_close_sessions srv)) as (_ & Hpool & _).
  exists polled, closes, draining, polling.
  split; [done|]. split; [done|]. split; [done|]. split; [done|].
  split; [|split; [done|split; [done|]]].
  - cbn [trace emit]. rewrite Ht. by rewrite <- !app_assoc.
  - intros task. rewrite run_broadcast_trace. cbn [_sessions emit].
    rewrite Hempty, map_to_list_empty. reflexivity.
Qed.

(** C6: two calls of [Stop] in a row run the teardown once. The first call,
    on a listening server, stops the listener; the second finds the server
    not listening and returns it with the warning logged and nothing else
    changed. *)
Theorem Stop_twice (schedule schedule' : list (list IOEvent))
  (srv srv' : WebSocketServer) :
  is_listening srv = true →
  Stop schedule srv = Some srv' →
  (∃ teardown, trace srv' = trace srv ++ AStopListening :: teardown) ∧
  is_listening srv' = false ∧
  Stop schedule' srv' = Some (emit (ALog LOG_WARNING stop_warning) srv').
Proof.
  intros Hlisten Hstop. split; [|split].
  - destruct (Stop_returns _ _ _ Hlisten Hstop)
      as (polled & ? & ? & ? & _ & _ & _ & -> & Ht).
    cbn [trace emit]. rewrite Ht. eexists. by rewrite <- !app_assoc.
  - by apply Stop_not_listening in Hstop.
  - apply Stop_not_listening in Hstop. unfold Stop. by rewrite Hstop.
Qed.

(** ** More on the local address *)

Lemma validAddresses_usable (s : string) (l : list QHostAddress) :
  s ∈ validAddresses l ↔ ∃ a, a ∈ l ∧ usable a = true ∧ toString a = s.
Proof using.
  unfold usable. induction l as [|x l IH]; cbn [validAddresses].
  - split; [intros H; inversion H|intros (a & H & _); inversion H].
  - destruct (isLocalHost x) eqn:E1; [|destruct (isLocalHostIPv6 x) eqn:E2;
      [|destruct (isLoopback x) eqn:E3; [|destruct (isLinkLocal x) eqn:E4;
        [|destruct (isNull x) eqn:E5]]]];
      rewrite ?elem_of_cons, IH; split;
      try (intros (a & Ha & Hu & Hs); exists a; split; [by right|done]);
      try (intros (a & Ha & Hu & Hs); apply elem_of_cons in Ha as [->|Ha];
           [by rewrite ?E1, ?E2, ?E3, ?E4, ?E5 in Hu|eauto]).
    + intros [->|(a & Ha & Hu & Hs)].
      * exists x. rewrite E1, E2, E3, E4, E5. split; [by left|done].
      * exists a. split; [by right|done].
    + intros (a & Ha & Hu & Hs). apply elem_of_cons in Ha as [->|Ha]; eauto.
Qed.

Lemma sort_insert_mem (a b : string * N) (l : list (string * N)) :
  b ∈ sort_insert a l ↔ b = a ∨ b ∈ l.
Proof using.
  induction l as [|x l IH]; cbn [sort_insert].
  - rewrite list_elem_of_singleton, elem_of_nil. tauto.
  - destruct (snd x <? snd a)%N; rewrite !elem_of_cons, ?IH; tauto.
Qed.

Lemma sort_by_priority_mem (b : string * N) (l : list (string * N)) :
  b ∈ sort_by_priority l ↔ b ∈ l.
Proof using.
  induction l as [|x l IH]; cbn [sort_by_priority]; [done|].
  by rewrite sort_insert_mem, elem_of_cons, IH.
Qed.

(** The head of the sorted vector has the least priority number. *)
Lemma sort_by_priority_head (l : list (string * N)) :
  match sort_by_priority l with
  | [] => True
  | best :: _ => ∀ x, x ∈ l → (snd best ≤ snd x)%N
  end.
Proof using.
  induction l as [|a l IH]; cbn [sort_by_priority]; [done|].
  destruct (sort_by_priority l) as [|b sorted] eqn:E; cbn [sort_insert].
  - intros x Hx. apply elem_of_cons in Hx as [->|Hx]; [lia|].
    apply sort_by_priority_mem in Hx. rewrite E in Hx. inversion Hx.
  - destruct (N.ltb_spec (snd b) (snd a)); intros x Hx;
      apply elem_of_cons in Hx as [->|Hx]; try lia; specialize (IH x Hx); lia.
Qed.

(** The choice of [GetLocalAddress] when some address passes the filter. *)
Lemma GetLocalAddress_choice (l : list QHostAddress) :
  validAddresses l ≠ [] →
  ∃ a, a ∈ l ∧ usable a = true ∧ toString a = GetLocalAddress l ∧
       ∀ a', a' ∈ l → usable a' = true →
             (addressPriority (GetLocalAddress l) ≤
              addressPriority (toString a'))%N.
Proof using.
  intros Hne. unfold GetLocalAddress.
  assert (Hv : ∃ v, v ∈ validAddresses l).
  { destruct (validAddresses l) as [|v ?]; [done|]. exists v. left. }
  destruct (Nat.eqb_spec (length (validAddresses l)) 0) as [Hlen|_].
  { by apply nil_length_inv in Hlen. }
  pose proof (sort_by_priority_head (preferredAddresses (validAddresses l)))
    as Hmin.
  destruct (sort_by_priority (preferredAddresses (validAddresses l)))
    as [|best rest] eqn:E.
  - destruct Hv as [v Hv].
    assert (Hin : (v, addressPriority v) ∈
                  sort_by_priority (preferredAddresses (validAddresses l))).
    { apply sort_by_priority_mem, list_elem_of_fmap. eauto. }
    rewrite E in Hin. inversion Hin.
  - assert (Hb : best ∈ preferredAddresses (validAddresses l)).
    { apply sort_by_priority_mem. rewrite E. left. }
    apply list_elem_of_fmap in Hb as (s & -> & Hs).
    apply validAddresses_usable in Hs as (a & Ha & Hu & Hs).
    exists a. cbn [fst snd] in *. repeat split; try done.
    intros a' Ha' Hu'.
    apply (Hmin (toString a', addressPriority (toString a'))).
    apply list_elem_of_fmap. exists (toString a'). split; [done|].
    apply validAddresses_usable. eauto.
Qed.

Lemma validAddresses_none (l : list QHostAddress) :
  validAddresses l = [] ↔ ∀ a, a ∈ l → usable a = false.
Proof using.
  split.
  - intros Hnil a Ha. destruct (usable a) eqn:Hu; [|done].
    assert (Hin : toString a ∈ validAddresses l)
      by (apply validAddresses_usable; eauto).
    rewrite Hnil in Hin. inversion Hin.
  - intros Hall. destruct (validAddresses l) as [|v valid] eqn:Ev; [done|].
    assert (Hin : v ∈ validAddresses l) by (rewrite Ev; left).
    apply validAddresses_usable in Hin as (a & Ha & Hu & _).
    rewrite (Hall a Ha) in Hu. done.
Qed.

(** X1: when no interface address passes the filter (none is reported, or
    each one is the local host, a loopback, a link-local or a null
    address), [GetLocalAddress] returns ["0.0.0.0"]. *)
Theorem GetLocalAddress_fallback (l : list QHostAddress) :
  (∀ a, a ∈ l → usable a = false) → GetLocalAddress l = "0.0.0.0".
Proof using.
  intros Hall. apply validAddresses_none in Hall.
  unfold GetLocalAddress. by rewrite Hall.
Qed.

(** X2: when some interface address passes the filter, [GetLocalAddress]
    returns the text of an address that passes it, and no address passing
    the filter has a strictly better (smaller) priority than the one
    returned. *)
Theorem GetLocalAddress_best (l : list QHostAddress) (a0 : QHostAddress) :
  a0 ∈ l → usable a0 = true →
  ∃ a, a ∈ l ∧ usable a = true ∧ toString a = GetLocalAddress l ∧
       ∀ a', a' ∈ l → usable a' = true →
             (addressPriority (GetLocalAddress l) ≤
              addressPriority (toString a'))%N.
Proof using.
  intros Hin Hu. apply GetLocalAddress_choice.
  intros Hnil. rewrite validAddresses_none in Hnil.
  rewrite (Hnil a0 Hin) in Hu. done.
Qed.

Lemma addressPriority_zero (s : string) :
  addressPriority s = 0%N ↔
  String.prefix "192.168.1" s = true ∨ String.prefix "192.168.0" s = true.
Proof using.
  unfold addressPriority.
  destruct (String.prefix "192.168.1" s), (String.prefix "192.168.0" s);
    cbn [orb]; try (split; [auto|done]).
  destruct (String.prefix "172.16" s); [split; [done|intros [|]; done]|].
  destruct (String.prefix "10." s); split; try done; intros [|]; done.
Qed.

(** X3: when an address passing the filter begins with ["192.168.1"] or
    ["192.168.0"], so does the address [GetLocalAddress] returns. *)
Theorem GetLocalAddress_prefers_home_network (l : list QHostAddress)
  (a0 : QHostAddress) :
  a0 ∈ l → usable a0 = true →
  String.prefix "192.168.1" (toString a0) = true ∨
  String.prefix "192.168.0" (toString a0) = true →
  String.prefix "192.168.1" (GetLocalAddress l) = true ∨
  String.prefix "192.168.0" (GetLocalAddress l) = true.
Proof using.
  intros Hin Hu Hpre. apply addressPriority_zero in Hpre.
  destruct (GetLocalAddress_choice l) as (a & _ & _ & _ & Hmin).
  { intros Hnil. rewrite validAddresses_none in Hnil.
    rewrite (Hnil a0 Hin) in Hu. done. }
  apply addressPriority_zero. specialize (Hmin a0 Hin Hu). lia.
Qed.

(** X4: the priority of the address returned does not depend on the order
    in which the interfaces report their addresses. *)
Theorem GetLocalAddress_order_independent (l l' : list QHostAddress) :
  l ≡ₚ l' →
  addressPriority (GetLocalAddress l) = addressPriority (GetLocalAddress l').
Proof using.
  intros Hperm.
  assert (Hmem : ∀ a, a ∈ l ↔ a ∈ l') by (intros a; by rewrite Hperm).
  destruct (validAddresses l) as [|v valid] eqn:Ev.
  - assert (Hnil' : validAddresses l' = []).
    { apply validAddresses_none. intros a Ha.
      apply (proj1 (validAddresses_none l) Ev), Hmem, Ha. }
    unfold GetLocalAddress. by rewrite Ev, Hnil'.
  - assert (Hne : validAddresses l ≠ []) by (by rewrite Ev).
    assert (Hne' : validAddresses l' ≠ []).
    { intros Hnil. rewrite validAddresses_none in Hnil.
      apply Hne, validAddresses_none. intros a Ha. apply Hnil, Hmem, Ha. }
    destruct (GetLocalAddress_choice l Hne) as (a & Ha & Hu & Hs & Hmin).
    destruct (GetLocalAddress_choice l' Hne') as (a' & Ha' & Hu' & Hs' & Hmin').
    apply Hmem in Ha. apply Hmem in Ha'.
    specialize (Hmin a' Ha' Hu'). specialize (Hmin' a Ha Hu).
    rewrite Hs in Hmin'. rewrite Hs' in Hmin. lia.
Qed.

(** ** More on the connect string *)

Lemma connect_string_plain (addr : string) (port : N) :
  no_percent addr = true →
  QString_arg_num (QString_arg "obswebsocket|%1:%2" addr) port =
    "obswebsocket|" +:+ addr +:+ ":" +:+ QString_number port.
Proof using.
  intros Haddr. unfold QString_arg_num.
  change (QString_arg "obswebsocket|%1:%2" addr)
    with ("obswebsocket|" +:+ addr +:+ ":%2").
  rewrite (QString_arg_prefix "obswebsocket|") by reflexivity.
  rewrite (QString_arg_prefix addr) by assumption.
  change (QString_arg ":%2" (QString_number port))
    with (":" +:+ QString_number port +:+ "").
  now rewrite string_app_empty_r.
Qed.

Lemma connect_string_password (addr password : string) (port : N) :
  no_percent addr = true →
  QString_arg
    (QString_arg_num (QString_arg "obswebsocket|%1:%2|%3" addr) port)
    password =
    "obswebsocket|" +:+ addr +:+ ":" +:+ QString_number port +:+ "|" +:+
    password.
Proof using.
  intros Haddr. unfold QString_arg_num.
  change (QString_arg "obswebsocket|%1:%2|%3" addr)
    with ("obswebsocket|" +:+ addr +:+ ":%2|%3").
  rewrite (QString_arg_prefix "obswebsocket|") by reflexivity.
  rewrite (QString_arg_prefix addr) by assumption.
  change (QString_arg ":%2|%3" (QString_number port))
    with (":" +:+ QString_number port +:+ "|%3").
  rewrite (QString_arg_prefix "obswebsocket|") by reflexivity.
  rewrite (QString_arg_prefix addr) by assumption.
  rewrite (QString_arg_prefix ":") by reflexivity.
  rewrite (QString_arg_prefix (QString_number port))
    by apply no_percent_number.
  change (QString_arg "|%3" password) with ("|" +:+ password +:+ "").
  now rewrite string_app_empty_r.
Qed.

(** X5: on a machine without a usable interface address the connect string
    names ["0.0.0.0"]: it is ["obswebsocket|0.0.0.0:<port>"], followed by
    ["|<password>"] when authentication is required, whatever the password
    contains. *)
Theorem GetConnectString_no_interface (l : list QHostAddress)
  (srv : WebSocketServer) :
  (∀ a, a ∈ l → usable a = false) →
  GetConnectString l srv =
    "obswebsocket|0.0.0.0:" +:+ QString_number (_serverPort srv) +:+
    (if _authenticationRequired srv then "|" +:+ _serverPassword srv else "").
Proof using.
  intros Hall. apply validAddresses_none in Hall.
  assert (Haddr : GetLocalAddress l = "0.0.0.0")
    by (unfold GetLocalAddress; by rewrite Hall).
  unfold GetConnectString. rewrite Haddr.
  destruct (_authenticationRequired srv).
  - by rewrite connect_string_password.
  - rewrite connect_string_plain by reflexivity.
    by rewrite string_app_empty_r.
Qed.

(** ** The session listing and the handlers *)

(** The entry [onOpen] leaves for its handle, whatever the content type. *)
Lemma onOpen_entry hdl now c srv :
  ∃ session,
    _sessions (onOpen hdl now c srv) = <[hdl := session]> (_sessions srv) ∧
    RemoteAddress session = get_remote_endpoint (connections srv hdl) ∧
    ConnectedAt session = (now mod 2 ^ 64)%Z ∧
    IncomingMessages session =
      IncomingMessages (session_at hdl (_sessions srv)) ∧
    OutgoingMessages session =
      OutgoingMessages (session_at hdl (_sessions srv)).
Proof.
  unfold onOpen.
  repeat match goal with
         | |- context [if String.eqb ?a ?b then _ else _] =>
           destruct (String.eqb a b)
         end;
    rewrite ?onOpen_greet_sessions;
    cbn [_sessions _authenticationRequired emit set_sessions];
    rewrite insert_insert_eq;
    try destruct (_authenticationRequired srv);
    eexists; (split; [reflexivity|]); repeat split.
Qed.

Lemma elem_of_listing (st : WebSocketSessionState) (srv : WebSocketServer) :
  st ∈ (GetWebSocketSessions srv).1 ↔
  ∃ hdl s, _sessions srv !! hdl = Some s ∧ st = session_state (hdl, s).
Proof.
  unfold GetWebSocketSessions. cbn [fst _sessions emit].
  rewrite list_elem_of_fmap. split.
  - intros ([hdl s] & -> & Hin). apply elem_of_map_to_list in Hin. eauto.
  - intros (hdl & s & Hin & ->). exists (hdl, s).
    by rewrite elem_of_map_to_list.
Qed.

(** X6: [GetWebSocketSessions] returns one state per session of the table,
    carrying the handle, the address, the connection time and the two
    counters of that session, and nothing else; it takes and releases the
    mutex and leaves the table as it was. *)
Theorem GetWebSocketSessions_lists (srv : WebSocketServer) :
  (∀ st, st ∈ (GetWebSocketSessions srv).1 ↔
         ∃ hdl s, _sessions srv !! hdl = Some s ∧
                  st = {| state_hdl := Some hdl;
                          state_remoteAddress := RemoteAddress s;
                          state_connectedAt := ConnectedAt s;
                          state_incomingMessages := IncomingMessages s;
                          state_outgoingMessages := OutgoingMessages s |}) ∧
  length (GetWebSocketSessions srv).1 = size (_sessions srv) ∧
  NoDup (state_hdl <$> (GetWebSocketSessions srv).1) ∧
  _sessions (GetWebSocketSessions srv).2 = _sessions srv ∧
  trace (GetWebSocketSessions srv).2 = trace srv ++ [ALock; AUnlock].
Proof.
  split; [intros st; apply elem_of_listing|].
  unfold GetWebSocketSessions. cbn [fst snd _sessions trace emit].
  split; [by rewrite length_map, length_map_to_list|].
  split; [|split; [done|by rewrite <- app_assoc]].
  rewrite <- list_fmap_compose.
  assert (Hfst : (state_hdl ∘ session_state <$> map_to_list (_sessions srv)) =
                 Some <$> (map_to_list (_sessions srv)).*1).
  { rewrite <- list_fmap_compose. by apply list_fmap_ext. }
  rewrite Hfst. apply NoDup_fmap; [intros ? ? [= ->]; done|].
  apply NoDup_fst_map_to_list.
Qed.

(** X7: once [onOpen] has run for a connection, the listing holds a state
    for its handle with the remote endpoint of the connection and the time
    of the call, also when the content type was refused and the connection
    is being closed. *)
Theorem onOpen_listed (hdl : connection_hdl) (now : Z) (c : string)
  (srv : WebSocketServer) :
  ∃ st, st ∈ (GetWebSocketSessions (onOpen hdl now c srv)).1 ∧
        state_hdl st = Some hdl ∧
        state_remoteAddress st = get_remote_endpoint (connections srv hdl) ∧
        state_connectedAt st = (now mod 2 ^ 64)%Z ∧
        state_incomingMessages st =
          IncomingMessages (session_at hdl (_sessions srv)) ∧
        state_outgoingMessages st =
          OutgoingMessages (session_at hdl (_sessions srv)).
Proof.
  destruct (onOpen_entry hdl now c srv) as (s & Hs & Ha & Ht & Hi & Ho).
  exists (session_state (hdl, s)). split; [|by cbn].
  apply elem_of_listing. exists hdl, s. split; [|done].
  rewrite Hs. apply lookup_insert_eq.
Qed.

(** X8: [onClose] takes exactly the state of the closed handle out of the
    listing: afterwards the listing holds the states it held before, except
    the one of that handle. *)
Theorem onClose_unlisted (hdl : connection_hdl) (srv : WebSocketServer)
  (st : WebSocketSessionState) :
  st ∈ (GetWebSocketSessions (onClose hdl srv)).1 ↔
  st ∈ (GetWebSocketSessions srv).1 ∧ state_hdl st ≠ Some hdl.
Proof.
  rewrite !elem_of_listing. destruct (onClose_spec hdl srv) as [-> _]. split.
  - intros (h & s & Hin & ->). apply lookup_delete_Some in Hin as [Hne Hin].
    split; [eauto|]. cbn. congruence.
  - intros [(h & s & Hin & ->) Hne]. exists h, s. split; [|done].
    apply lookup_delete_Some. split; [|done]. cbn in Hne. congruence.
Qed.

(** X9: [onOpen] writes the entry of its own handle only, and it neither
    identifies a session nor gives it a subscription: every other entry is
    as before, and the identification flag and the subscriptions of the
    handle are those it had (those of a new session when it had none). *)
Theorem onOpen_frame (hdl : connection_hdl) (now : Z) (c : string)
  (srv : WebSocketServer) :
  (∀ h, h ≠ hdl → _sessions (onOpen hdl now c srv) !! h = _sessions srv !! h) ∧
  ∃ session,
    _sessions (onOpen hdl now c srv) !! hdl = Some session ∧
    IsIdentified session = IsIdentified (session_at hdl (_sessions srv)) ∧
    EventSubscriptions session =
      EventSubscriptions (session_at hdl (_sessions srv)).
Proof.
  destruct (onOpen_sessions hdl now c srv) as (s & -> & _ & _ & Hid & Hsub).
  split.
  - intros h Hne. by rewrite lookup_insert_ne.
  - exists s. by rewrite lookup_insert_eq.
Qed.

(** X10: a second [onClose] for the same handle finds no entry: it reports
    [ClientDisconnected] once more, with an empty state, never
    [IdentifiedClientDisconnected], and the table stays as the first call
    left it. *)
Theorem onClose_twice (hdl : connection_hdl) (srv : WebSocketServer) :
  trace (onClose hdl (onClose hdl srv)) =
    trace (onClose hdl srv) ++
    [ALock; AErase hdl; AUnlock;
     AClientDisconnected (snapshot default_session)
       (get_local_close_code (connections srv hdl))] ∧
  _sessions (onClose hdl (onClose hdl srv)) = _sessions (onClose hdl srv).
Proof.
  destruct (onClose_spec hdl (onClose hdl srv)) as [Hs Ht].
  destruct (onClose_spec hdl srv) as [Hs1 _].
  assert (Hconn : connections (onClose hdl srv) = connections srv).
  { unfold onClose.
    destruct (IsIdentified (session_at hdl (_sessions srv))); reflexivity. }
  rewrite Hs, Ht, Hconn, Hs1. unfold session_at.
  rewrite lookup_delete_eq. cbn [default IsIdentified default_session].
  split; [done|]. apply delete_id, lookup_delete_eq.
Qed.

Lemma run_io_lookup (events : list IOEvent) :
  ∀ (srv : WebSocketServer) (h : connection_hdl),
    is_Some (_sessions (run_io events srv) !! h) ↔
    match last_lifecycle h events with
    | Some opened => opened = true
    | None => is_Some (_sessions srv !! h)
    end.
Proof.
  unfold run_io.
  induction events as [|e events IH]; intros srv h;
    cbn [fold_left last_lifecycle]; [done|].
  rewrite IH. destruct (last_lifecycle h events) as [b|]; [done|].
  destruct e as [h' now c|h'|h' m]; cbn [run_io_event].
  - destruct (onOpen_sessions h' now c srv) as (s & -> & _).
    destruct (decide (h' = h)) as [->|Hne].
    + rewrite lookup_insert_eq. split; [done|eauto].
    + by rewrite lookup_insert_ne.
  - destruct (onClose_spec h' srv) as [-> _].
    destruct (decide (h' = h)) as [->|Hne].
    + rewrite lookup_delete_eq. split; [intros [? ?]; done|done].
    + by rewrite lookup_delete_ne.
  - done.
Qed.

(** X11: after any run of handlers, a handle has an entry in the table
    exactly when the last [onOpen] or [onClose] run for it was an [onOpen],
    or, when none was run for it, when it had an entry before. *)
Theorem run_io_table (events : list IOEvent) (srv : WebSocketServer)
  (h : connection_hdl) :
  is_Some (_sessions (run_io events srv) !! h) ↔
  match last_lifecycle h events with
  | Some opened => opened = true
  | None => is_Some (_sessions srv !! h)
  end.
Proof. apply run_io_lookup. Qed.

(** What [InvalidateSession] does to the trace. *)
Lemma InvalidateSession_trace hdl srv :
  trace (InvalidateSession hdl srv) =
    trace srv ++
    ALog LOG_INFO invalidate_notice :: APauseReading hdl ::
    match pause_reading_error (connections srv hdl) with
    | Some e => [ALog LOG_INFO (invalidate_error_msg e)]
    | None =>
      AClose hdl SessionInvalidated invalidate_reason ::
      match close_error (connections srv hdl) with
      | Some e => [ALog LOG_INFO (invalidate_error_msg e)]
      | None => []
      end
    end.
Proof.
  unfold InvalidateSession.
  destruct (pause_reading_error _); [|destruct (close_error _)];
    cbn [trace emit]; by rewrite <- !app_assoc.
Qed.

Lemma InvalidateSession_sessions hdl srv :
  _sessions (InvalidateSession hdl srv) = _sessions srv.
Proof.
  unfold InvalidateSession.
  by destruct (pause_reading_error _); [|destruct (close_error _)].
Qed.

(** X12: [InvalidateSession] asks the transport to close the connection
    with [SessionInvalidated] exactly when pausing its reads succeeded; an
    error of either step is logged; it sends no frame and leaves the
    session table as it was. *)
Theorem InvalidateSession_closes (hdl : connection_hdl) (srv : WebSocketServer) :
  ∃ acts,
    trace (InvalidateSession hdl srv) =
      trace srv ++
      ALog LOG_INFO invalidate_notice :: APauseReading hdl :: acts ∧
    (AClose hdl SessionInvalidated invalidate_reason ∈ acts ↔
     pause_reading_error (connections srv hdl) = None) ∧
    (∀ e, pause_reading_error (connections srv hdl) = Some e ∨
          (pause_reading_error (connections srv hdl) = None ∧
           close_error (connections srv hdl) = Some e) →
          ALog LOG_INFO (invalidate_error_msg e) ∈ acts) ∧
    (∀ h payload op, ASend h payload op ∉ acts) ∧
    _sessions (InvalidateSession hdl srv) = _sessions srv.
Proof.
  eexists. split; [apply InvalidateSession_trace|].
  split; [|split; [|split; [|apply InvalidateSession_sessions]]].
  - destruct (pause_reading_error _).
    + split; [|done]. intros H. apply list_elem_of_singleton in H. done.
    + split; [done|]. intros _. left.
  - intros e [->|[-> ->]]; [left|right; left].
  - intros h payload op.
    destruct (pause_reading_error _); [|destruct (close_error _)];
      rewrite ?elem_of_cons, ?elem_of_nil; intros H;
      repeat destruct H as [H|H]; done.
Qed.

(** X13: invalidating a session does not take it out of the fan-out: as
    long as [onClose] has not run for it, a broadcast is sent to the same
    sessions as before the invalidation. *)
Theorem InvalidateSession_keeps_recipient (hdl : connection_hdl)
  (task : BroadcastTask) (srv : WebSocketServer) :
  trace (run_broadcast task (InvalidateSession hdl srv)) =
    trace (InvalidateSession hdl srv) ++ task_actions (_sessions srv) task.
Proof.
  rewrite run_broadcast_trace, InvalidateSession_sessions. done.
Qed.

(** ** More on the broadcast *)

Lemma deliveries_none r msg l :
  (∀ it, it ∈ l → qualifies r it.2 = false) → deliveries r msg l = [].
Proof.
  intros Hnone. destruct (deliveries r msg l) as [|a rest] eqn:E; [done|].
  assert (Ha : a ∈ deliveries r msg l) by (rewrite E; left).
  apply elem_of_deliveries in Ha as (it & Hit & Hid & Hsub & _).
  specialize (Hnone it Hit). unfold qualifies in Hnone.
  rewrite Hid in Hnone. apply Z.eqb_neq in Hsub. by rewrite Hsub in Hnone.
Qed.

(** X14: a broadcast whose required intent is 0 is sent to nobody, whatever
    the sessions subscribed to: the task only takes and releases the
    mutex. *)
Theorem run_broadcast_no_intent (task : BroadcastTask) (srv : WebSocketServer) :
  task_requiredIntent task = 0%Z →
  trace (run_broadcast task srv) = trace srv ++ [ALock; AUnlock].
Proof.
  intros Hzero. rewrite run_broadcast_trace, deliveries_none; [done|].
  intros it _. unfold qualifies. rewrite Hzero, Z.land_0_r.
  by destruct (IsIdentified it.2).
Qed.

Lemma broadcast_step_buffers r msg acc it :
  buffers_ok msg acc →
  messageJson (broadcast_step r msg acc it) =
    (if qualifies r it.2 && encoding_eqb (Encoding it.2) Json
     then json_dump msg else messageJson acc) ∧
  messageMsgPack (broadcast_step r msg acc it) =
    (if qualifies r it.2 && encoding_eqb (Encoding it.2) MsgPack
     then json_to_msgpack msg else messageMsgPack acc).
Proof.
  intros [Hj Hm]. unfold broadcast_step, qualifies.
  destruct (IsIdentified it.2); cbn [negb andb]; [|done].
  destruct (negb _); cbn [andb]; [|done].
  destruct (Encoding it.2); cbn [encoding_eqb messageJson messageMsgPack].
  - by rewrite (lazy_buffer _ _ Hj).
  - by rewrite (lazy_buffer _ _ Hm).
Qed.

Lemma broadcast_loop_buffers r msg l : ∀ acc,
  buffers_ok msg acc →
  messageJson (broadcast_loop r msg l acc) =
    (if needs_encoding r Json l then json_dump msg else messageJson acc) ∧
  messageMsgPack (broadcast_loop r msg l acc) =
    (if needs_encoding r MsgPack l then json_to_msgpack msg
     else messageMsgPack acc).
Proof.
  unfold broadcast_loop, needs_encoding.
  induction l as [|it l IH]; intros acc Hacc; cbn [fold_left existsb]; [done|].
  destruct (broadcast_step_performed r msg acc it Hacc) as [Hok _].
  destruct (broadcast_step_buffers r msg acc it Hacc) as [Hj Hm].
  destruct (IH _ Hok) as [-> ->]. rewrite Hj, Hm.
  split.
  - destruct (qualifies r it.2 && encoding_eqb (Encoding it.2) Json);
      cbn [orb]; [|done].
    by match goal with |- context [if ?b then _ else _] => destruct b end.
  - destruct (qualifies r it.2 && encoding_eqb (Encoding it.2) MsgPack);
      cbn [orb]; [|done].
    by match goal with |- context [if ?b then _ else _] => destruct b end.
Qed.

(** X15: the fan-out serializes lazily. When the loop over the sessions
    ends, the JSON buffer holds the dump of the event if some qualifying
    session uses [Json] and is still empty otherwise; the MessagePack
    buffer likewise for [MsgPack]. *)
Theorem broadcast_loop_lazy (r : Z) (msg : json)
  (l : list (connection_hdl * WebSocketSession)) (done_so_far : list Action) :
  let out :=
    broadcast_loop r msg l
      {| messageJson := ""; messageMsgPack := ""; performed := done_so_far |} in
  messageJson out = (if needs_encoding r Json l then json_dump msg else "") ∧
  messageMsgPack out =
    (if needs_encoding r MsgPack l then json_to_msgpack msg else "").
Proof.
  apply (broadcast_loop_buffers r msg l
           {| messageJson := ""; messageMsgPack := "";
              performed := done_so_far |}).
  split; by left.
Qed.

(** X16: the event message is an object with [messageType] ["Event"] and
    the event type; the event data is a member of it exactly when it is an
    object: data of any other kind (null, a number, a string, an array) is
    left out. *)
Theorem eventMessage_members (eventType : string) (eventData : json) :
  is_object (eventMessage eventType eventData) = true ∧
  json_member "messageType" (eventMessage eventType eventData) =
    Some (JString "Event") ∧
  json_member "eventType" (eventMessage eventType eventData) =
    Some (JString eventType) ∧
  json_member "eventData" (eventMessage eventType eventData) =
    (if is_object eventData then Some eventData else None).
Proof.
  unfold eventMessage.
  destruct (is_object eventData); cbn [json_set json_member is_object];
    repeat split; by simplify_map_eq.
Qed.

Lemma run_tasks_trace tasks : ∀ srv,
  trace (fold_left (λ s task, run_broadcast task s) tasks srv) =
    trace srv ++ (tasks ≫= task_actions (_sessions srv)).
Proof.
  induction tasks as [|task tasks IH]; intros srv; cbn [fold_left].
  - cbn. by rewrite app_nil_r.
  - rewrite IH, run_broadcast_trace. cbn [mbind list_bind].
    change (_sessions (run_broadcast task srv)) with (_sessions srv).
    unfold task_actions at 2. by rewrite <- !app_assoc.
Qed.

(** The trace of [waitForDone]: the queued tasks, over the table as it is. *)
Lemma waitForDone_trace srv :
  trace (waitForDone srv) =
    trace srv ++ [AWaitForDone] ++
    (_threadPool srv ≫= task_actions (_sessions srv)).
Proof.
  unfold waitForDone. cbn [trace set_threadPool].
  rewrite run_tasks_trace. cbn [trace emit _sessions].
  by rewrite <- app_assoc.
Qed.

(** ** More on the shutdown *)

Lemma stop_step_trace l : ∀ srv,
  trace (fold_left stop_step l srv) =
    trace srv ++ (l ≫= stop_actions (connections srv)).
Proof.
  induction l as [|it l IH]; intros srv; cbn [fold_left].
  - cbn. by rewrite app_nil_r.
  - rewrite IH. cbn [mbind list_bind].
    assert (Hconn : connections (stop_step srv it) = connections srv).
    { unfold stop_step.
      by destruct (pause_reading_error _); [|destruct (close_error _)]. }
    rewrite Hconn. unfold stop_step, stop_actions at 2.
    destruct (pause_reading_error _); [|destruct (close_error _)];
      cbn [trace emit]; by rewrite <- !app_assoc.
Qed.

Lemma stop_close_sessions_trace srv :
  trace (stop_close_sessions srv) =
    trace srv ++ [AStopListening; ALock] ++
    (map_to_list (_sessions srv) ≫= stop_actions (connections srv)) ++
    [AUnlock].
Proof.
  unfold stop_close_sessions. cbn [trace emit].
  rewrite stop_step_trace. cbn [trace emit set_listening _sessions connections].
  by rewrite <- !app_assoc.
Qed.

Lemma elem_of_stop_actions conns l a :
  a ∈ l ≫= stop_actions conns ↔ ∃ it, it ∈ l ∧ a ∈ stop_actions conns it.
Proof.
  rewrite list_elem_of_bind. split; intros (it & H1 & H2); eauto.
Qed.

(** X18: the first part of [Stop] pauses the reads of every session of the
    table and closes with "going away" exactly those whose pause
    succeeded; an error of either step is logged and the loop goes on. It
    removes no session from the table. *)
Theorem stop_close_sessions_closes (srv : WebSocketServer) :
  ∃ closes,
    trace (stop_close_sessions srv) =
      trace srv ++ [AStopListening; ALock] ++ closes ++ [AUnlock] ∧
    (∀ h, APauseReading h ∈ closes ↔ is_Some (_sessions srv !! h)) ∧
    (∀ h, AClose h going_away "Server stopping." ∈ closes ↔
          is_Some (_sessions srv !! h) ∧
          pause_reading_error (connections srv h) = None) ∧
    (∀ h e, is_Some (_sessions srv !! h) →
            pause_reading_error (connections srv h) = Some e ∨
            (pause_reading_error (connections srv h) = None ∧
             close_error (connections srv h) = Some e) →
            ALog LOG_INFO (stop_error_msg e) ∈ closes) ∧
    _sessions (stop_close_sessions srv) = _sessions srv.
Proof.
  eexists. split; [apply stop_close_sessions_trace|].
  split; [|split; [|split]].
  - intros h. rewrite elem_of_stop_actions. split.
    + intros ([h' s] & Hin & Ha). apply elem_of_map_to_list in Hin.
      unfold stop_actions in Ha. cbn [fst] in Ha.
      destruct (pause_reading_error _); [|destruct (close_error _)];
        rewrite ?elem_of_cons, ?elem_of_nil in Ha;
        repeat destruct Ha as [Ha|Ha]; try done; injection Ha as ->; eauto.
    + intros [s Hs]. exists (h, s). rewrite elem_of_map_to_list.
      split; [done|left].
  - intros h. rewrite elem_of_stop_actions. split.
    + intros ([h' s] & Hin & Ha). apply elem_of_map_to_list in Hin.
      unfold stop_actions in Ha. cbn [fst] in Ha.
      destruct (pause_reading_error _) eqn:Ep; [|destruct (close_error _)];
        rewrite ?elem_of_cons, ?elem_of_nil in Ha;
        repeat destruct Ha as [Ha|Ha]; try done; injection Ha as ->; eauto.
    + intros [[s Hs] Hp]. exists (h, s). rewrite elem_of_map_to_list.
      split; [done|]. unfold stop_actions. cbn [fst]. rewrite Hp.
      right. left.
  - intros h e [s Hs] Herr. apply elem_of_stop_actions. exists (h, s).
    rewrite elem_of_map_to_list. split; [done|].
    unfold stop_actions. cbn [fst].
    destruct Herr as [->|[-> ->]]; [right; left|right; right; left].
  - by destruct (stop_close_sessions_spec srv) as (_ & _ & -> & _).
Qed.

Lemma run_io_keeps_sessions events : ∀ srv,
  no_close events = true → _sessions srv ≠ ∅ →
  _sessions (run_io events srv) ≠ ∅.
Proof.
  intros srv Hno Hne Hempty.
  apply map_choose in Hne as (h & s & Hs).
  assert (Hsome : is_Some (_sessions (run_io events srv) !! h)).
  { apply run_io_lookup.
    assert (Hlast : last_lifecycle h events ≠ Some false).
    { clear -Hno. induction events as [|e events IH]; cbn; [done|].
      cbn in Hno. apply andb_prop in Hno as [He Hno].
      destruct (last_lifecycle h events) as [b|]; [by apply IH|].
      destruct e; try done. by destruct (decide _). }
    destruct (last_lifecycle h events) as [[|]|]; [done|done|eauto]. }
  rewrite Hempty, lookup_empty in Hsome. by destruct Hsome.
Qed.

Lemma stop_poll_blocks schedule : ∀ srv,
  forallb no_close schedule = true → _sessions srv ≠ ∅ →
  stop_poll schedule srv = None.
Proof.
  induction schedule as [|events schedule IH]; intros srv Hno Hne;
    cbn [stop_poll];
    destruct (Nat.ltb_spec 0 (size (_sessions srv))) as [_|Hle];
    try (exfalso; apply Hne, map_size_empty_inv; lia); [done|].
  cbn in Hno. apply andb_prop in Hno as [He Hno].
  apply IH; [done|]. by apply run_io_keeps_sessions.
Qed.

(** X19: [Stop] does not empty the table itself, it waits for [onClose]:
    on a listening server with a session in the table, as long as the I/O
    thread runs no [onClose], the polling loop does not end and [Stop] does
    not return. *)
Theorem Stop_waits_for_onClose (schedule : list (list IOEvent))
  (srv : WebSocketServer) :
  is_listening srv = true →
  _sessions srv ≠ ∅ →
  forallb no_close schedule = true →
  Stop schedule srv = None.
Proof.
  intros Hlisten Hne Hno. unfold Stop. rewrite Hlisten. cbn [negb].
  rewrite stop_poll_blocks; [done|done|].
  destruct (waitForDone_spec (stop_close_sessions srv)) as (_ & _ & -> & _).
  by destruct (stop_close_sessions_spec srv) as (_ & _ & -> & _).
Qed.

Lemma tasks_on_empty_table (pool : list BroadcastTask) :
  pool ≫= task_actions ∅ = pool ≫= λ _, [ALock; AUnlock].
Proof.
  induction pool as [|t pool IH]; [done|].
  cbn [mbind list_bind]. rewrite IH. unfold task_actions.
  by rewrite map_to_list_empty.
Qed.

(** X21: [Stop] on a listening server without sessions returns at once,
    whatever the I/O thread would do: it stops the listener, lets the
    queued broadcasts run (each finds no session), never sleeps, and joins
    the thread. *)
Theorem Stop_without_sessions (schedule : list (list IOEvent))
  (srv : WebSocketServer) :
  is_listening srv = true →
  _sessions srv = ∅ →
  ∃ srv',
    Stop schedule srv = Some srv' ∧
    is_listening srv' = false ∧
    _threadPool srv' = [] ∧
    trace srv' =
      trace srv ++ [AStopListening; ALock; AUnlock; AWaitForDone] ++
      (_threadPool srv ≫= λ _, [ALock; AUnlock]) ++
      [AJoin; ALog LOG_INFO stop_success].
Proof.
  intros Hlisten Hempty. unfold Stop. rewrite Hlisten. cbn [negb].
  destruct (stop_close_sessions_spec srv) as (Hl & Hp & Hs & _).
  destruct (waitForDone_spec (stop_close_sessions srv)) as (Hl' & Hp' & Hs' & _).
  rewrite stop_poll_empty by (by rewrite Hs', Hs).
  eexists. split; [done|]. cbn [is_listening _threadPool trace emit].
  split; [by rewrite Hl', Hl|]. split; [done|].
  rewrite waitForDone_trace, stop_close_sessions_trace, Hs, Hp, Hempty.
  rewrite map_to_list_empty, tasks_on_empty_table. cbn [mbind list_bind app].
  by rewrite <- !app_assoc.
Qed.


(** ** Starting the server *)

Lemma Stop_host_returns schedule h h' :
  Stop_host schedule h = Some h' →
  Stop schedule (server h) = Some (server h').
Proof.
  unfold Stop_host. destruct (Stop schedule (server h)) as [srv'|]; [|done].
  destruct (is_listening (server h)); [destruct (_serverThread h)|];
    intros [= <-]; done.
Qed.

(** X23: a second [Start] changes nothing: once [Start] has returned with a
    configuration and a listener that bound, any further call, whatever
    configuration, salt or listen result it is given, only logs the
    warning; port, password, salt and secret stay those of the first
    call. *)
Theorem Start_twice (GenerateSecret : string → string → string)
  (conf : Config) (conf' : option Config)
  (salt salt' : string) (listen_error' : option string)
  (addrs addrs' : list QHostAddress) (h h1 : ServerHost) :
  Start GenerateSecret (Some conf) salt None addrs h = Some h1 →
  Start GenerateSecret conf' salt' listen_error' addrs' h1 =
    Some (with_server (emit (ALog LOG_WARNING start_warning) (server h1)) h1).
Proof.
  intros Hstart.
  assert (Hl : is_listening (server h1) = true).
  { unfold Start in Hstart. destruct (is_listening (server h)) eqn:El.
    - injection Hstart as <-. done.
    - destruct (_serverThread h); [done|]. injection Hstart as <-. done. }
  unfold Start. by rewrite Hl.
Qed.

(** X24: [Start] takes the configuration over before it binds. On a server
    that is not listening and has no thread, whether [listen] succeeds or
    fails, the table is untouched, the salt is the fresh one, the secret is
    derived from the new password and that salt, and the connect string is
    the one of the new port, password and authentication flag; the server
    listens and owns an I/O thread exactly when [listen] succeeded. *)
Theorem Start_captures_config (GenerateSecret : string → string → string)
  (conf : Config) (salt : string)
  (listen_error : option string) (addrs l : list QHostAddress)
  (h : ServerHost) :
  is_listening (server h) = false →
  _serverThread h = false →
  no_percent (GetLocalAddress l) = true →
  ∃ h',
    Start GenerateSecret (Some conf) salt listen_error addrs h = Some h' ∧
    (is_listening (server h') = true ↔ listen_error = None) ∧
    (_serverThread h' = true ↔ listen_error = None) ∧
    _sessions (server h') = _sessions (server h) ∧
    _authenticationSalt (server h') = salt ∧
    _authenticationSecret h' = GenerateSecret (ServerPassword conf) salt ∧
    GetConnectString l (server h') =
      "obswebsocket|" +:+ GetLocalAddress l +:+ ":" +:+
      QString_number (ServerPort conf) +:+
      (if AuthRequired conf then "|" +:+ ServerPassword conf else "").
Proof.
  intros Hl Ht Haddr. unfold Start. rewrite Hl, Ht.
  destruct listen_error as [e|]; (eexists; split; [reflexivity|]);
    cbn [server is_listening _serverThread _sessions _authenticationSalt
         _authenticationSecret emit set_listening capture_config];
    rewrite ?Hl, ?Ht; (repeat split; try done);
    unfold GetConnectString;
    cbn [_authenticationRequired _serverPort _serverPassword emit
         set_listening capture_config];
    (destruct (AuthRequired conf);
     [by rewrite connect_string_password
     |rewrite connect_string_plain by done; by rewrite string_app_empty_r]).
Qed.

(** X25: a stopped server can be started again. After [Stop] has returned
    on a running server, [Start] is not refused: with a configuration and a
    listener that binds it leaves the server listening, with an I/O thread,
    an empty session table and the new salt. *)
Theorem Start_after_Stop (GenerateSecret : string → string → string)
  (schedule : list (list IOEvent)) (conf : Config)
  (salt : string) (addrs : list QHostAddress) (h h1 : ServerHost) :
  is_listening (server h) = true →
  _serverThread h = true →
  Stop_host schedule h = Some h1 →
  ∃ h2,
    Start GenerateSecret (Some conf) salt None addrs h1 = Some h2 ∧
    is_listening (server h2) = true ∧
    _serverThread h2 = true ∧
    _sessions (server h2) = ∅ ∧
    _authenticationSalt (server h2) = salt.
Proof.
  intros Hl Ht Hstop. pose proof (Stop_host_returns _ _ _ Hstop) as Hcore.
  destruct (Stop_returns _ _ _ Hl Hcore)
    as (polled & ? & ? & ? & _ & Hempty & _ & Hsrv & _).
  pose proof (Stop_not_listening _ _ _ Hcore) as Hl1.
  assert (Ht1 : _serverThread h1 = false).
  { unfold Stop_host in Hstop. rewrite Hcore, Hl, Ht in Hstop.
    by injection Hstop as <-. }
  unfold Start. rewrite Hl1, Ht1. eexists. split; [reflexivity|].
  cbn [server is_listening _serverThread _sessions _authenticationSalt emit
       set_listening capture_config].
  rewrite Hsrv. done.
Qed.

(** The greeting of a connection whose content type is accepted. *)
Lemma onOpen_greeting hdl now c srv :
  negotiable (get_request_header (connections srv hdl) "Content-Type") = true →
  let hello :=
    helloMessage (_authenticationRequired srv) c (_authenticationSalt srv) in
  trace (onOpen hdl now c srv) = trace srv ++
    [ALock; AUnlock; ASend hdl (json_dump hello) text] ∨
  trace (onOpen hdl now c srv) = trace srv ++
    [ALock; AUnlock; ASend hdl (json_to_msgpack hello) binary].
Proof.
  intros Hneg hello. unfold onOpen, negotiable in *.
  destruct (String.eqb _ "") eqn:E1;
    [|destruct (String.eqb _ "application/json") eqn:E2;
      [|destruct (String.eqb _ "application/msgpack") eqn:E3; [|done]]];
    rewrite onOpen_greet_trace;
    cbn [_authenticationRequired _authenticationSalt trace emit set_sessions];
    rewrite <- !app_assoc; fold hello;
    match goal with
    | |- context [match ?e with Json => _ | MsgPack => _ end] => destruct e
    end; auto.
Qed.

(** X26: the salt a client is given is the one of the last start. After a
    [Start] that required authentication, the greeting [onOpen] sends to an
    accepted connection is the [Hello] object whose [authentication] member
    holds the challenge of the session and the salt generated by that
    [Start]. *)
Theorem Start_salt_in_greeting (GenerateSecret : string → string → string)
  (conf : Config) (salt c : string)
  (listen_error : option string) (addrs : list QHostAddress)
  (h h' : ServerHost) (hdl : connection_hdl) (now : Z) :
  is_listening (server h) = false →
  AuthRequired conf = true →
  Start GenerateSecret (Some conf) salt listen_error addrs h = Some h' →
  negotiable
    (get_request_header (connections (server h') hdl) "Content-Type") = true →
  let hello := helloMessage true c salt in
  json_member "authentication" hello =
    Some (JObject (<["salt" := JString salt]> {["challenge" := JString c]})) ∧
  (trace (onOpen hdl now c (server h')) = trace (server h') ++
     [ALock; AUnlock; ASend hdl (json_dump hello) text] ∨
   trace (onOpen hdl now c (server h')) = trace (server h') ++
     [ALock; AUnlock; ASend hdl (json_to_msgpack hello) binary]).
Proof.
  intros Hl Hauth Hstart Hneg hello. unfold hello.
  split; [by destruct (helloMessage_members true c salt) as (_ & _ & _ & ->)|].
  pose proof (onOpen_greeting hdl now c (server h') Hneg) as Hg.
  assert (Hcfg : _authenticationRequired (server h') = true ∧
                 _authenticationSalt (server h') = salt).
  { unfold Start in Hstart. rewrite Hl in Hstart.
    destruct listen_error; [|destruct (_serverThread h); [done|]];
      injection Hstart as <-; done. }
  destruct Hcfg as [Ha Hs]. rewrite Ha, Hs in Hg. exact Hg.
Qed.

End Server.

(** * The statements on the example configurations *)

(** The connect string of the example server, with and without
    authentication. *)
Lemma GetConnectString_form_witness :
  no_percent (GetLocalAddress [loopback_address; example_address]) = true ∧
  GetConnectString [loopback_address; example_address]
    (example_server (example_connection "" None) ∅ true) =
    "obswebsocket|192.168.1.20:4455|secret".
Proof.
  split; [reflexivity|].
  exact (GetConnectString_form [loopback_address; example_address]
           (example_server (example_connection "" None) ∅ true) eq_refl).
Defined.

Example GetConnectString_without_authentication :
  GetConnectString [loopback_address; example_address]
    (example_server (example_connection "" None) ∅ false) =
    "obswebsocket|192.168.1.20:4455".
Proof. reflexivity. Qed.

Example GetLocalAddress_prefers_consumer_prefixes :
  GetLocalAddress
    [ {| isLocalHost := false; isLocalHostIPv6 := false; isLoopback := false;
         isLinkLocal := false; isNull := false; toString := "10.0.0.7" |};
      {| isLocalHost := false; isLocalHostIPv6 := false; isLoopback := false;
         isLinkLocal := false; isNull := false; toString := "8.8.4.4" |};
      example_address ] = "192.168.1.20" ∧
  GetLocalAddress [loopback_address] = "0.0.0.0".
Proof. split; reflexivity. Qed.

(** A MessagePack client of a server that requires authentication is
    greeted once, in a binary frame. *)
Lemma onOpen_sends_hello_witness :
  let srv :=
    example_server (example_connection "application/msgpack" None) ∅ true in
  negotiable (get_request_header (connections srv 7) "Content-Type") = true ∧
  ∃ session,
    _sessions (onOpen dump_stub msgpack_stub "5.0.0" 1 7 1600000000
                 "Y2hhbGxlbmdl" srv) !! 7 = Some session ∧
    Encoding session = MsgPack ∧
    Challenge session = "Y2hhbGxlbmdl" ∧
    trace (onOpen dump_stub msgpack_stub "5.0.0" 1 7 1600000000
             "Y2hhbGxlbmdl" srv) =
      [ALock; AUnlock; ASend 7 "<map>" binary].
Proof.
  intros srv. split; [reflexivity|].
  destruct (onOpen_sends_hello dump_stub msgpack_stub "5.0.0" 1 7 1600000000
              "Y2hhbGxlbmdl" srv eq_refl)
    as (session & Hs & He & Ht & _ & _ & _ & _ & Hauth).
  exists session. split; [exact Hs|]. split; [exact He|].
  split; [exact (proj1 (Hauth eq_refl))|].
  rewrite Ht. change (Encoding session = MsgPack) in He. rewrite He.
  reflexivity.
Defined.

(** A client asking for [text/plain] is closed without a greeting, and its
    entry is gone once the close handler has run. *)
Lemma onOpen_invalid_content_type_witness :
  let srv := example_server (example_connection "text/plain" None) ∅ false in
  let contentType := get_request_header (connections srv 7) "Content-Type" in
  contentType ≠ "" ∧
  contentType ≠ "application/json" ∧
  contentType ≠ "application/msgpack" ∧
  trace (onOpen dump_stub msgpack_stub "5.0.0" 1 7 1600000000 "" srv) =
    [ALock; AUnlock; AClose 7 InvalidContentType invalid_content_type_reason] ∧
  _sessions (onClose 7 (onOpen dump_stub msgpack_stub "5.0.0" 1 7 1600000000
                          "" srv)) !! 7 = None.
Proof.
  intros srv contentType.
  assert (E1 : contentType ≠ "") by (intros H; discriminate H).
  assert (E2 : contentType ≠ "application/json")
    by (intros H; discriminate H).
  assert (E3 : contentType ≠ "application/msgpack")
    by (intros H; discriminate H).
  split; [exact E1|]. split; [exact E2|]. split; [exact E3|].
  destruct (onOpen_invalid_content_type dump_stub msgpack_stub "5.0.0" 1 7
              1600000000 "" srv E1 E2 E3) as (Ht & _ & Hc).
  split; [exact Ht|exact Hc].
Defined.

(** Neither a message received, nor the greeting, nor a delivered event
    moves a counter of the session. *)
Lemma counters_counterexample :
  let srv :=
    example_server (example_connection "" None)
      {[ 7 := example_session Json 2 ]} false in
  let before := session_at 7 (_sessions srv) in
  ¬ (IncomingMessages (session_at 7 (_sessions (onMessage 7 "{}" srv))) =
       ((IncomingMessages before + 1) mod 2 ^ 64)%Z) ∧
  ¬ (OutgoingMessages
       (session_at 7 (_sessions (onOpen dump_stub msgpack_stub "5.0.0" 1 7
                                   1600000000 "" srv))) =
       ((OutgoingMessages before + 1) mod 2 ^ 64)%Z) ∧
  ASend 7 "{...}" text ∈
    trace (onOpen dump_stub msgpack_stub "5.0.0" 1 7 1600000000 "" srv) ∧
  ASend 7 "{...}" text ∈
    trace (run_broadcast dump_stub msgpack_stub example_task srv) ∧
  ¬ (OutgoingMessages
       (session_at 7 (_sessions (run_broadcast dump_stub msgpack_stub
                                   example_task srv))) =
       ((OutgoingMessages before + 1) mod 2 ^ 64)%Z).
Proof.
  intros srv before.
  repeat split; try (vm_compute; discriminate);
    vm_compute; apply list_elem_of_In; simpl; tauto.
Qed.

(** A failed send of a broadcast leaves no log line. *)
Lemma run_broadcast_error_not_logged_counterexample :
  let srv :=
    example_server (example_connection "" (Some "Broken pipe"))
      {[ 7 := example_session Json 2 ]} false in
  send_error (connections srv 7) = Some "Broken pipe" ∧
  trace (run_broadcast dump_stub msgpack_stub example_task srv) =
    [ALock; ASend 7 "{...}" text; AUnlock] ∧
  ¬ (∃ level m,
       ALog level m ∈
         trace (run_broadcast dump_stub msgpack_stub example_task srv)).
Proof.
  intros srv. split; [reflexivity|]. split; [reflexivity|].
  intros (level & m & Hin). vm_compute in Hin.
  apply list_elem_of_In in Hin. simpl in Hin.
  repeat destruct Hin as [Hin|Hin]; try discriminate; assumption.
Qed.

(** Closing a handle the table does not know. *)
Lemma onClose_unknown_handle_witness :
  let srv :=
    example_server (example_connection "" None)
      {[ 7 := example_session Json 2 ]} false in
  _sessions srv !! 3 = None ∧
  trace (onClose 3 srv) =
    [ALock; AErase 3; AUnlock;
     AClientDisconnected
       {| state_hdl := None; state_remoteAddress := "";
          state_connectedAt := 0; state_incomingMessages := 0;
          state_outgoingMessages := 0 |} (status_value 1000)] ∧
  _sessions (onClose 3 srv) = _sessions srv.
Proof.
  intros srv. split; [reflexivity|].
  destruct (onClose_unknown_handle 3 srv eq_refl) as (Ht & _ & Hs).
  split; [exact Ht|exact Hs].
Defined.

(** The shutdown of the example server with two clients. *)
Lemma Stop_drains_witness :
  is_listening example_running = true ∧
  ∃ srv',
    Stop dump_stub msgpack_stub "5.0.0" 1 example_schedule example_running =
      Some srv' ∧
    _sessions srv' = ∅ ∧ _threadPool srv' = [] ∧
    ∀ task,
      trace (run_broadcast dump_stub msgpack_stub task srv') =
        trace srv' ++ [ALock; AUnlock].
Proof.
  split; [reflexivity|]. eexists.
  match goal with
  | |- ?returned ∧ _ => assert (Hstop : returned) by (vm_compute; reflexivity)
  end.
  split; [exact Hstop|].
  destruct (Stop_drains dump_stub msgpack_stub "5.0.0" 1 example_schedule
              example_running _ eq_refl Hstop)
    as (? & ? & ? & ? & _ & _ & _ & _ & _ & Hs & Hp & Hb).
  split; [exact Hs|]. split; [exact Hp|exact Hb].
Defined.

Lemma Stop_twice_witness :
  is_listening example_running = true ∧
  ∃ srv',
    Stop dump_stub msgpack_stub "5.0.0" 1 example_schedule example_running =
      Some srv' ∧
    is_listening srv' = false ∧
    Stop dump_stub msgpack_stub "5.0.0" 1 [] srv' =
      Some (emit (ALog LOG_WARNING stop_warning) srv').
Proof.
  split; [reflexivity|]. eexists.
  match goal with
  | |- ?returned ∧ _ => assert (Hstop : returned) by (vm_compute; reflexivity)
  end.
  split; [exact Hstop|].
  destruct (Stop_twice dump_stub msgpack_stub "5.0.0" 1 example_schedule []
              example_running _ eq_refl Hstop) as (_ & Hl & Hs).
  split; [exact Hl|exact Hs].
Defined.

(** * The further statements on the example configurations *)

Lemma GetLocalAddress_fallback_witness :
  (∀ a, a ∈ [loopback_address] → usable a = false) ∧
  GetLocalAddress [loopback_address] = "0.0.0.0".
Proof.
  assert (H : ∀ a, a ∈ [loopback_address] → usable a = false).
  { intros a Ha. apply list_elem_of_singleton in Ha. subst a. reflexivity. }
  split; [exact H|exact (GetLocalAddress_fallback _ H)].
Defined.

Lemma GetLocalAddress_best_witness :
  let l := [private_address; public_address; example_address] in
  public_address ∈ l ∧ usable public_address = true ∧
  ∃ a, a ∈ l ∧ usable a = true ∧ toString a = "192.168.1.20" ∧
       ∀ a', a' ∈ l → usable a' = true →
             (addressPriority "192.168.1.20" ≤ addressPriority (toString a'))%N.
Proof.
  intros l.
  assert (Hin : public_address ∈ l) by (right; left).
  split; [exact Hin|]. split; [reflexivity|].
  exact (GetLocalAddress_best l public_address Hin eq_refl).
Defined.

Lemma GetLocalAddress_prefers_home_network_witness :
  let l := [private_address; public_address; example_address] in
  example_address ∈ l ∧ usable example_address = true ∧
  (String.prefix "192.168.1" (toString example_address) = true ∨
   String.prefix "192.168.0" (toString example_address) = true) ∧
  (String.prefix "192.168.1" (GetLocalAddress l) = true ∨
   String.prefix "192.168.0" (GetLocalAddress l) = true).
Proof.
  intros l.
  assert (Hin : example_address ∈ l) by (right; right; left).
  split; [exact Hin|]. split; [reflexivity|].
  split; [left; reflexivity|].
  exact (GetLocalAddress_prefers_home_network l example_address Hin eq_refl
           (or_introl eq_refl)).
Defined.

Lemma GetLocalAddress_order_independent_witness :
  [private_address; example_address] ≡ₚ [example_address; private_address] ∧
  addressPriority (GetLocalAddress [private_address; example_address]) =
    addressPriority (GetLocalAddress [example_address; private_address]).
Proof.
  assert (H : [private_address; example_address] ≡ₚ
              [example_address; private_address]) by apply perm_swap.
  split; [exact H|exact (GetLocalAddress_order_independent _ _ H)].
Defined.

Lemma GetConnectString_no_interface_witness :
  (∀ a, a ∈ [loopback_address] → usable a = false) ∧
  GetConnectString [loopback_address]
    (example_server (example_connection "" None) ∅ true) =
    "obswebsocket|0.0.0.0:4455|secret".
Proof.
  assert (H : ∀ a, a ∈ [loopback_address] → usable a = false).
  { intros a Ha. apply list_elem_of_singleton in Ha. subst a. reflexivity. }
  split; [exact H|].
  exact (GetConnectString_no_interface [loopback_address]
           (example_server (example_connection "" None) ∅ true) H).
Defined.

Lemma run_broadcast_no_intent_witness :
  let task :=
    {| task_requiredIntent := 0; task_eventType := "Heartbeat";
       task_eventData := JNull |} in
  task_requiredIntent task = 0%Z ∧
  trace (run_broadcast dump_stub msgpack_stub task example_running) =
    [ALock; AUnlock].
Proof.
  intros task. split; [reflexivity|].
  exact (run_broadcast_no_intent dump_stub msgpack_stub task example_running
           eq_refl).
Defined.

Lemma Stop_waits_for_onClose_witness :
  let schedule := [[IOMessage 7 "{}"]; []] in
  is_listening example_running = true ∧
  _sessions example_running ≠ ∅ ∧
  forallb no_close schedule = true ∧
  Stop dump_stub msgpack_stub "5.0.0" 1 schedule example_running = None.
Proof.
  intros schedule.
  assert (Hne : _sessions example_running ≠ ∅).
  { intros H. apply (f_equal (λ m, m !! 7)) in H. vm_compute in H.
    discriminate H. }
  split; [reflexivity|]. split; [exact Hne|]. split; [reflexivity|].
  exact (Stop_waits_for_onClose dump_stub msgpack_stub "5.0.0" 1 schedule
           example_running eq_refl Hne eq_refl).
Defined.

Lemma Stop_without_sessions_witness :
  let srv := example_server (example_connection "" None) ∅ false in
  is_listening srv = true ∧ _sessions srv = ∅ ∧
  ∃ srv',
    Stop dump_stub msgpack_stub "5.0.0" 1 [] srv = Some srv' ∧
    trace srv' =
      [AStopListening; ALock; AUnlock; AWaitForDone; AJoin;
       ALog LOG_INFO stop_success].
Proof.
  intros srv. split; [reflexivity|]. split; [reflexivity|].
  destruct (Stop_without_sessions dump_stub msgpack_stub "5.0.0" 1 [] srv
              eq_refl eq_refl) as (srv' & Hs & _ & _ & Ht).
  exists srv'. split; [exact Hs|exact Ht].
Defined.

Lemma Start_twice_witness :
  ∃ h1,
    Start secret_stub (Some example_config) "c2FsdDI=" None [example_address]
      example_host = Some h1 ∧
    Start secret_stub None "" (Some "Address already in use") [] h1 =
      Some (with_server (emit (ALog LOG_WARNING start_warning) (server h1)) h1).
Proof.
  eexists.
  match goal with
  | |- ?started ∧ _ => assert (Hstart : started) by reflexivity
  end.
  split; [exact Hstart|].
  exact (Start_twice secret_stub example_config None "c2FsdDI=" "" _
           [example_address] [] example_host _ Hstart).
Defined.

Lemma Start_captures_config_witness :
  is_listening (server example_host) = false ∧
  _serverThread example_host = false ∧
  no_percent (GetLocalAddress [example_address]) = true ∧
  ∃ h',
    Start secret_stub (Some example_config) "c2FsdDI="
      (Some "Address already in use") [example_address] example_host =
      Some h' ∧
    is_listening (server h') = false ∧
    _authenticationSecret h' = "hunter2:c2FsdDI=" ∧
    GetConnectString [example_address] (server h') =
      "obswebsocket|192.168.1.20:4444|hunter2".
Proof.
  split; [reflexivity|]. split; [reflexivity|]. split; [reflexivity|].
  destruct (Start_captures_config secret_stub example_config "c2FsdDI="
              (Some "Address already in use") [example_address]
              [example_address] example_host eq_refl eq_refl eq_refl)
    as (h' & Hs & Hl & _ & _ & _ & Hsec & Hc).
  exists h'. split; [exact Hs|]. split; [|split; [exact Hsec|exact Hc]].
  destruct (is_listening (server h')); [|reflexivity].
  discriminate (proj1 Hl eq_refl).
Defined.

Lemma Start_after_Stop_witness :
  is_listening (server example_running_host) = true ∧
  _serverThread example_running_host = true ∧
  ∃ h1 h2,
    Stop_host dump_stub msgpack_stub "5.0.0" 1 example_schedule
      example_running_host = Some h1 ∧
    Start secret_stub (Some example_config) "c2FsdDI=" None [example_address]
      h1 = Some h2 ∧
    is_listening (server h2) = true ∧
    _sessions (server h2) = ∅.
Proof.
  split; [reflexivity|]. split; [reflexivity|]. eexists.
  match goal with
  | |- ∃ h2, ?stopped ∧ _ =>
    assert (Hstop : stopped) by (vm_compute; reflexivity)
  end.
  destruct (Start_after_Stop dump_stub msgpack_stub "5.0.0" 1 secret_stub
              example_schedule example_config "c2FsdDI=" [example_address]
              example_running_host _ eq_refl eq_refl Hstop)
    as (h2 & Hstart & Hl & _ & Hempty & _).
  exists h2. split; [exact Hstop|]. split; [exact Hstart|].
  split; [exact Hl|exact Hempty].
Defined.

Lemma Start_salt_in_greeting_witness :
  is_listening (server example_host) = false ∧
  AuthRequired example_config = true ∧
  ∃ h',
    Start secret_stub (Some example_config) "c2FsdDI=" None [example_address]
      example_host = Some h' ∧
    negotiable
      (get_request_header (connections (server h') 7) "Content-Type") = true ∧
    trace (onOpen dump_stub msgpack_stub "5.0.0" 1 7 1600000000
             "Y2hhbGxlbmdl" (server h')) =
      trace (server h') ++ [ALock; AUnlock; ASend 7 "{...}" text].
Proof.
  split; [reflexivity|]. split; [reflexivity|]. eexists.
  match goal with
  | |- ?started ∧ _ => assert (Hstart : started) by reflexivity
  end.
  split; [exact Hstart|]. split; [reflexivity|].
  destruct (Start_salt_in_greeting dump_stub msgpack_stub "5.0.0" 1
              secret_stub example_config "c2FsdDI=" "Y2hhbGxlbmdl" None
              [example_address] example_host _ 7 1600000000
              eq_refl eq_refl Hstart eq_refl) as [_ [Ht|Ht]].
  - exact Ht.
  - exfalso. vm_compute in Ht. discriminate Ht.
Defined.
